(** * XFS project quotas of the NFS provisioner: [pkg/volume/quota.go]

    A shallow embedding of [xfsQuotaer] (construction, [restoreQuotas],
    [AddProject], [RemoveProject], [SetQuota]) with the projects file as a
    byte string, the project id map as a finite map, and every file access
    and [xfs_quota] invocation recorded in a log. The methods run one at
    a time: the two mutexes of the quotaer are not modelled. *)

From Stdlib Require Import ZArith NArith Lia List Ascii String.
From stdpp Require Import base option list gmap strings.

Local Open Scope N_scope.

(** ** Byte strings *)

(** Go [string] and [[]byte] values are sequences of bytes. *)
Abbreviation bytes := (list ascii).

Definition B (s : string) : bytes := list_ascii_of_string s.

Definition nl : ascii := "010"%char.
Definition colon : ascii := ":"%char.

(** ** [strconv] *)

Module strconv.

Definition is_digit (c : ascii) : bool :=
  let n := N_of_ascii c in (48 <=? n) && (n <=? 57).

Definition digit_char (d : N) : ascii := ascii_of_N (48 + d).

Definition digit_val (c : ascii) : N := N_of_ascii c - 48.

(** Digits of [n], most significant first, pushed in front of [acc]. *)
Fixpoint digits (fuel : nat) (n : N) (acc : bytes) : bytes :=
  match fuel with
  | O => acc
  | S fuel' =>
      let acc' := digit_char (n mod 10) :: acc in
      if n / 10 =? 0 then acc' else digits fuel' (n / 10) acc'
  end.

(** [strconv.FormatUint(i, 10)] for a [uint64]: at most 20 digits. *)
Definition FormatUint (i : N) : bytes := digits 20 i [].

(** The value of a digit string, read left to right. *)
Definition dec_step (a : N) (c : ascii) : N := 10 * a + digit_val c.

Definition dec_value (s : bytes) : N := fold_left dec_step s 0.

Inductive NumError := ErrSyntax | ErrRange.

(** [strconv.ParseUint(s, 10, bitSize)]: a syntax error yields 0, a value
    that does not fit in [bitSize] bits yields the largest such value and
    a range error. *)
Definition ParseUint (s : bytes) (bitSize : N) : N * option NumError :=
  match s with
  | [] => (0, Some ErrSyntax)
  | _ =>
      if forallb is_digit s then
        let maxVal := 2 ^ bitSize - 1 in
        if maxVal <? dec_value s then (maxVal, Some ErrRange)
        else (dec_value s, None)
      else (0, Some ErrSyntax)
  end.

End strconv.

(** Conversion [uint16(x)] of a wider unsigned integer. *)
Definition uint16 (x : N) : N := x mod 65536.

(** ** [regexp]: the fragment used by the two patterns of this file *)

Module regexp.

Inductive regex :=
| Lit (c : ascii)                 (* a literal byte *)
| Bol                             (* ^ under (?m) *)
| Eol                             (* $ under (?m) *)
| Plus (cls : ascii -> bool)      (* greedy x+ for a one-byte class x *)
| Cap (r : regex)                 (* a capturing group *)
| Seq (r1 r2 : regex).

(** [[0-9]] and [.] (any byte but a newline, no (?s) flag). *)
Definition cls_digit : ascii -> bool := strconv.is_digit.
Definition cls_dot (c : ascii) : bool := negb (Ascii.eqb c nl).

Section Matcher.
Context {A : Type}.

(** A continuation receives the captures made so far, in the order in
    which their groups closed, the byte before the current position and
    the rest of the input. *)
Definition cont := list bytes -> option ascii -> bytes -> option A.

(** After one byte of the class has been taken: take more first, and
    fall back to the continuation from the longest run downwards. *)
Fixpoint plus_loop (cls : ascii -> bool) (caps : list bytes)
    (prev : option ascii) (s : bytes) (k : cont) : option A :=
  match s with
  | c :: s' =>
      if cls c then
        match plus_loop cls caps (Some c) s' k with
        | Some r => Some r
        | None => k caps prev s
        end
      else k caps prev s
  | [] => k caps prev s
  end.

(** Backtracking match of [r] at the current position; the first
    success in priority order is the leftmost-first match. *)
Fixpoint run (r : regex) (caps : list bytes) (prev : option ascii)
    (s : bytes) (k : cont) : option A :=
  match r with
  | Lit c =>
      match s with
      | c' :: s' => if Ascii.eqb c c' then k caps (Some c') s' else None
      | [] => None
      end
  | Bol =>
      match prev with
      | None => k caps prev s
      | Some p => if Ascii.eqb p nl then k caps prev s else None
      end
  | Eol =>
      match s with
      | [] => k caps prev s
      | c :: _ => if Ascii.eqb c nl then k caps prev s else None
      end
  | Plus cls =>
      match s with
      | c :: s' => if cls c then plus_loop cls caps (Some c) s' k else None
      | [] => None
      end
  | Cap r1 =>
      run r1 caps prev s
        (fun caps' prev' s' =>
           k (caps' ++ [take (length s - length s') s]) prev' s')
  | Seq r1 r2 =>
      run r1 caps prev s (fun caps' prev' s' => run r2 caps' prev' s' k)
  end.
End Matcher.

(** Where a greedy run of [cls] must end: at the end of the input or
    before a byte outside the class. *)
Definition stops (cls : ascii -> bool) (s : bytes) : Prop :=
  match s with
  | [] => True
  | c :: _ => cls c = false
  end.

(** One match at the current position: [match[0]] followed by the
    submatches, as [FindAllSubmatch] returns them. *)
Definition match_here (r : regex) (prev : option ascii) (s : bytes)
    : option (list bytes) :=
  run r [] prev s
    (fun caps _ s' => Some (take (length s - length s') s :: caps)).

(** Scan from left to right; [skip] bytes belong to the match just
    reported and are passed over. No pattern here matches the empty
    string. *)
Fixpoint find_all (r : regex) (prev : option ascii) (s : bytes)
    (skip : nat) : list (list bytes) :=
  match s with
  | [] => []
  | c :: s' =>
      match skip with
      | S n => find_all r (Some c) s' n
      | O =>
          match match_here r prev s with
          | Some m => m :: find_all r (Some c) s' (length (hd [] m) - 1)
          | None => find_all r (Some c) s' 0
          end
      end
  end.

(** [re.FindAllSubmatch(b, -1)]. *)
Definition FindAllSubmatch (r : regex) (b : bytes) : list (list bytes) :=
  find_all r None b 0.

End regexp.

Import regexp.

(** [regexp.MustCompile("(?m:\n^([0-9]+):(.+):(.+)$\n)")] of [restoreQuotas]. *)
Definition restore_re : regex :=
  Seq (Lit nl) (Seq Bol (Seq (Cap (Plus cls_digit)) (Seq (Lit colon)
    (Seq (Cap (Plus cls_dot)) (Seq (Lit colon)
      (Seq (Cap (Plus cls_dot)) (Seq Eol (Lit nl)))))))).

(** [regexp.MustCompile("(?m:^([0-9]+):/.+$)")] of [newXfsQuotaer]. *)
Definition scan_re : regex :=
  Seq Bol (Seq (Cap (Plus cls_digit)) (Seq (Lit colon)
    (Seq (Lit "/"%char) (Seq (Plus cls_dot) Eol)))).

(** ** [strings] *)

Module strings.

(** [strings.HasPrefix(s, prefix)]. *)
Fixpoint HasPrefix (s prefix : bytes) {struct prefix} : bool :=
  match prefix, s with
  | [], _ => true
  | p :: prefix', c :: s' => Ascii.eqb p c && HasPrefix s' prefix'
  | _ :: _, [] => false
  end.

(** [strings.Index(s, substr)], with [None] for -1. *)
Fixpoint Index (s substr : bytes) : option nat :=
  if HasPrefix s substr then Some O
  else match s with
       | [] => None
       | _ :: s' => option_map S (Index s' substr)
       end.

(** Drop every occurrence of [old], found from left to right without
    overlap; [skip] bytes belong to the occurrence just found. *)
Fixpoint drop_all (old s : bytes) (skip : nat) : bytes :=
  match s with
  | [] => []
  | c :: s' =>
      match skip with
      | S n => drop_all old s' n
      | O =>
          if HasPrefix s old then drop_all old s' (length old - 1)
          else c :: drop_all old s' 0
      end
  end.

(** [s] without the occurrences of [old], as
    [strings.Replace(s, old, "", -1)] computes it; an empty [old] matches
    between bytes and deleting it leaves [s] as it is. *)
Definition RemoveAll (s old : bytes) : bytes :=
  match old with
  | [] => s
  | _ => drop_all old s 0
  end.

Global Arguments RemoveAll : simpl never.
Global Arguments Index : simpl never.

End strings.

(** ** The quotaer and its environment *)

(** What [os.Stat] reports: [os.IsNotExist] holds of [StatNotExist] only. *)
Inductive StatResult := StatOk | StatNotExist | StatOtherError.

(** Accesses to the projects file and invocations of [xfs_quota], failed
    attempts included. [EvExec c] is [xfs_quota -x -c c xfsPath]. *)
Inductive event :=
| EvReadFile
| EvAppend (block : bytes)
| EvRemove (block : bytes)
| EvExec (command : bytes).

Inductive error :=
| ErrFile (op : event)
| ErrXfsQuota (command : bytes)
| ErrNotAdded (projectId : N)
| ErrAddBlock (block : bytes) (cause : error)
| ErrRestoreQuota (directory : bytes) (cause : error)
| ErrRestoring (cause : error)
| ErrCreate
| ErrValidation.

(** Calls of the quotaer's own methods made by [restoreQuotas], with what
    each returned. *)
Inductive call :=
| CallRemoveProject (block : bytes) (projectId : N) (err : option error)
| CallSetQuota (projectId : N) (directory bhard : bytes) (err : option error).

(** The outcomes the program cannot decide: whether a directory exists and
    whether a file operation or an [xfs_quota] run succeeds, the latter as
    functions of everything attempted so far. *)
Record Env := {
  stat : bytes -> StatResult;
  readOk : list event -> bool;
  appendOk : list event -> bytes -> bool;
  removeOk : list event -> bytes -> bool;
  execOk : list event -> bytes -> bool
}.

(** [projectIds] is the field of [xfsQuotaer]; [file] is the content of
    the file at [projectsFile]; [log] and [calls] record what was done. *)
Record State := {
  projectIds : gmap N bool;
  file : bytes;
  log : list event;
  calls : list call
}.

Definition set_projectIds (f : gmap N bool -> gmap N bool) (q : State) :=
  {| projectIds := f (projectIds q); file := file q;
     log := log q; calls := calls q |}.
Definition set_file (f : bytes -> bytes) (q : State) :=
  {| projectIds := projectIds q; file := f (file q);
     log := log q; calls := calls q |}.
Definition add_event (e : event) (q : State) :=
  {| projectIds := projectIds q; file := file q;
     log := log q ++ [e]; calls := calls q |}.
Definition add_call (c : call) (q : State) :=
  {| projectIds := projectIds q; file := file q;
     log := log q; calls := calls q ++ [c] |}.

(** State passing for the methods of [*xfsQuotaer]. *)
Definition M (A : Type) : Type := State -> A * State.

Definition ret {A} (a : A) : M A := fun q => (a, q).
Definition bind {A C} (m : M A) (k : A -> M C) : M C :=
  fun q => let (a, q') := m q in k a q'.
Definition gets {A} (f : State -> A) : M A := fun q => (f q, q).
Definition modify (f : State -> State) : M unit := fun q => (tt, f q).

Notation "'do' x <- m ; k" := (bind m (fun x => k))
  (at level 10, x name, m at level 100, k at level 200).
Notation "'do_' m ; k" := (bind m (fun _ => k))
  (at level 10, m at level 100, k at level 200).

(** The largest project id, [math.MaxUint16]. *)
Definition MaxUint16 : N := 65535.

(** [m[k]] on a [map[uint16]bool]: the zero value when [k] is absent. *)
Definition map_index (ids : gmap N bool) (k : N) : bool :=
  default false (ids !! k).

(** ** What [quota.go] computes without touching the host *)

(** [fmt.Sprintf("project -s -p %s %s", directory, projectIdStr)]. *)
Definition project_command (directory projectIdStr : bytes) : bytes :=
  B "project -s -p " ++ directory ++ B " " ++ projectIdStr.

(** [fmt.Sprintf("limit -p bhard=%s %s", bhard, projectIdStr)]. *)
Definition limit_command (bhard projectIdStr : bytes) : bytes :=
  B "limit -p bhard=" ++ bhard ++ B " " ++ projectIdStr.

(** ["\n" + projectIdStr + ":" + directory + ":" + bhard + "\n"]. *)
Definition block_text (projectIdStr directory bhard : bytes) : bytes :=
  [nl] ++ projectIdStr ++ [colon] ++ directory ++ [colon] ++ bhard ++ [nl].

Definition block_of (projectId : N) (directory bhard : bytes) : bytes :=
  block_text (strconv.FormatUint projectId) directory bhard.

(** The tag a match carries: [strconv.ParseUint(string(match[1]), 10, 16)]
    with the error dropped, then [uint16(projectId)]. *)
Definition match_id (m : list bytes) : N :=
  uint16 (fst (strconv.ParseUint (nth 1 m []) 16)).

(** The record [restoreQuotas] reads off a match: tag, directory, limit. *)
Definition record_of (m : list bytes) : N * bytes * bytes :=
  (match_id m, nth 2 m [], nth 3 m []).

(** The records of a projects file, in file order. *)
Definition loadRecords (content : bytes) : list (N * bytes * bytes) :=
  map record_of (FindAllSubmatch restore_re content).

(** What construction finds on the host: the verdict of the checks on
    [xfsPath] (lines 58 to 80), the projects file if there is one, and
    whether [os.Create] can make it. *)
Record Host := {
  validation : option error;
  projects : option bytes;
  createOk : bool
}.

(** A quotaer that has done nothing yet. *)
Definition fresh (ids : gmap N bool) (content : bytes) : State :=
  {| projectIds := ids; file := content; log := []; calls := [] |}.

(** ** Helpers of the package that live outside [quota.go] *)

(** Modelled from the spec: [generateId], the allocator's [allocate], is
    not in [quota.go]. The spec fixes that it "returns a tag not currently
    marked allocated, then marks it allocated", with tags in 1..65535, and
    that it fails only when the tag space is exhausted. The model takes the
    least free tag; [None] stands for the exhausted allocator. *)
Fixpoint first_free (ids : gmap N bool) (n : nat) (id : N) : option N :=
  match n with
  | O => None
  | S n' =>
      if bool_decide (ids !! id = None) then Some id
      else first_free ids n' (id + 1)
  end.

Definition free_id (ids : gmap N bool) : option N :=
  first_free ids (N.to_nat MaxUint16) 1.

Definition generateId : M (option N) :=
  do ids <- gets projectIds;
  match free_id ids with
  | Some id =>
      do_ modify (set_projectIds (fun m => <[id := true]> m));
      ret (Some id)
  | None => ret None
  end.

(** Modelled from the spec: [deleteId], the allocator's [release], is not
    in [quota.go]; "release(id) unmarks it". *)
Definition deleteId (id : N) : M unit :=
  modify (set_projectIds (fun m => delete id m)).

Section WithEnv.
Context (env : Env).

(** Modelled from the spec: [addToFile], the store's [append], is not in
    [quota.go]; it "appends [the block] to the file", and a block is
    never partially written: a failed append leaves the file as it was. *)
Definition addToFile (toAdd : bytes) : M (option error) :=
  do l <- gets log;
  do_ modify (add_event (EvAppend toAdd));
  if appendOk env l toAdd then
    do_ modify (set_file (fun f => f ++ toAdd));
    ret None
  else ret (Some (ErrFile (EvAppend toAdd))).

(** Modelled from the spec: [removeFromFile], the store's [remove], is
    not in [quota.go]; it "deletes the exact previously-returned block
    text from the file", removal being "content-addressed (exact
    substring match) rather than line-indexed": the text is deleted
    wherever it occurs. A failed removal leaves the file as it was. *)
Definition removeFromFile (toRemove : bytes) : M (option error) :=
  do l <- gets log;
  do_ modify (add_event (EvRemove toRemove));
  if removeOk env l toRemove then
    do_ modify (set_file (fun f => strings.RemoveAll f toRemove));
    ret None
  else ret (Some (ErrFile (EvRemove toRemove))).

(** [ioutil.ReadFile(q.projectsFile)]. *)
Definition ReadFile : M (bytes * option error) :=
  do l <- gets log;
  do_ modify (add_event EvReadFile);
  if readOk env l then
    do f <- gets file; ret (f, None)
  else ret ([], Some (ErrFile EvReadFile)).

(** [exec.Command("xfs_quota", "-x", "-c", command, q.xfsPath)] followed
    by [cmd.CombinedOutput()]; the output only decorates the error. *)
Definition xfs_quota (command : bytes) : M (option error) :=
  do l <- gets log;
  do_ modify (add_event (EvExec command));
  if execOk env l command then ret None
  else ret (Some (ErrXfsQuota command)).

(** Modelled from the spec: [getExistingIds], the store's [scan], is not
    in [quota.go]; it is "a best-effort read of the file at startup,
    matching only lines of the form id:<anything> to recover
    previously-known tags", with the pattern [newXfsQuotaer] passes. A
    tag is read as [restoreQuotas] reads it. *)
Definition getExistingIds (re : regex) : M (gmap N bool * option error) :=
  do r <- ReadFile;
  match snd r with
  | Some e => ret (∅, Some e)
  | None =>
      ret (fold_left (fun ids m => <[match_id m := true]> ids)
             (FindAllSubmatch re (fst r)) ∅, None)
  end.

(** ** The methods of [quota.go] *)

(** [AddProject] returns [(block, projectId, err)]; [None] is the run in
    which the allocator has no tag to give. *)
Definition AddProject (directory bhard : bytes)
    : M (option (bytes * N * option error)) :=
  do alloc <- generateId;
  match alloc with
  | None => ret None
  | Some projectId =>
      let projectIdStr := strconv.FormatUint projectId in
      let block := block_of projectId directory bhard in
      do err <- addToFile block;
      match err with
      | Some e =>
          do_ deleteId projectId;
          ret (Some ([], 0, Some (ErrAddBlock block e)))
      | None =>
          do err <- xfs_quota (project_command directory projectIdStr);
          match err with
          | Some e =>
              do_ deleteId projectId;
              do_ removeFromFile block;
              ret (Some ([], 0, Some e))
          | None => ret (Some (block, projectId, None))
          end
      end
  end.

Definition RemoveProject (block : bytes) (projectId : N)
    : M (option error) :=
  do_ deleteId projectId;
  removeFromFile block.

Definition SetQuota (projectId : N) (directory bhard : bytes)
    : M (option error) :=
  do ids <- gets projectIds;
  if negb (map_index ids projectId) then ret (Some (ErrNotAdded projectId))
  else
    let projectIdStr := strconv.FormatUint projectId in
    xfs_quota (limit_command bhard projectIdStr).

Definition UnsetQuota : M (option error) := ret None.

(** The body of the loop of [restoreQuotas] over [matches]. *)
Fixpoint restore_loop (matches : list (list bytes)) : M (option error) :=
  match matches with
  | [] => ret None
  | m :: rest =>
      let projectId := match_id m in
      let directory := nth 2 m [] in
      let bhard := nth 3 m [] in
      match stat env directory with
      | StatNotExist =>
          do err <- RemoveProject (nth 0 m []) projectId;
          do_ modify (add_call (CallRemoveProject (nth 0 m []) projectId err));
          restore_loop rest
      | _ =>
          do err <- SetQuota projectId directory bhard;
          do_ modify (add_call (CallSetQuota projectId directory bhard err));
          match err with
          | Some e => ret (Some (ErrRestoreQuota directory e))
          | None => restore_loop rest
          end
      end
  end.

Definition restoreQuotas : M (option error) :=
  do r <- ReadFile;
  match snd r with
  | Some e => ret (Some e)
  | None => restore_loop (FindAllSubmatch restore_re (fst r))
  end.

(** The state in which [newXfsQuotaer] calls [restoreQuotas]: the
    projects file created empty, or scanned for the ids it mentions. An
    error of the scan is logged and construction goes on. *)
Definition before_restore (h : Host) : option error + State :=
  match validation h with
  | Some e => inl (Some e)
  | None =>
      match projects h with
      | None =>
          if createOk h then inr (fresh ∅ []) else inl (Some ErrCreate)
      | Some content =>
          let (r, q) := getExistingIds scan_re (fresh ∅ content) in
          inr (set_projectIds (fun _ => fst r) q)
      end
  end.

(** [newXfsQuotaer]: the error, if any, and the quotaer as
    [restoreQuotas] left it. *)
Definition newXfsQuotaer (h : Host) : option error * option State :=
  match before_restore h with
  | inl e => (e, None)
  | inr q =>
      let (err, q') := restoreQuotas q in
      match err with
      | Some e => (Some (ErrRestoring e), Some q')
      | None => (None, Some q')
      end
  end.

End WithEnv.

(** ** Vocabulary of the statements *)

(** Strings of decimal digits, strings without a newline, strings without
    a colon. *)
Abbreviation digit_string s :=
  (Forall (fun c => strconv.is_digit c = true) s).
Abbreviation no_newline s := (Forall (fun c => c <> nl) s).
Abbreviation no_colon s := (Forall (fun c => c <> colon) s).

(** A text as [AddProject] writes it, the tag being any digit string. *)
Definition well_formed (t : bytes * bytes * bytes) : Prop :=
  let '(ds, directory, bhard) := t in
  ds <> [] /\ digit_string ds /\
  directory <> [] /\ no_newline directory /\
  bhard <> [] /\ no_newline bhard /\ no_colon bhard.

Definition text_of (t : bytes * bytes * bytes) : bytes :=
  let '(ds, directory, bhard) := t in block_text ds directory bhard.

Definition match_of (t : bytes * bytes * bytes) : list bytes :=
  let '(ds, directory, bhard) := t in
  [block_text ds directory bhard; ds; directory; bhard].

(** A record [AddProject] can write and [restoreQuotas] can read: a tag
    of 16 bits, a non-empty directory without a newline, a non-empty
    decimal limit. *)
Definition writable (r : N * bytes * bytes) : Prop :=
  let '(projectId, directory, bhard) := r in
  projectId <= MaxUint16 /\
  directory <> [] /\ no_newline directory /\
  bhard <> [] /\ digit_string bhard.

Definition block_of_record (r : N * bytes * bytes) : bytes :=
  let '(projectId, directory, bhard) := r in block_of projectId directory bhard.

(** A line framed by newlines: what a block is, seen from the file. *)
Definition framed (x : bytes) : bytes := nl :: x ++ [nl].

(** The rest of a file after a block: nothing, or the start of a block. *)
Definition starts_nl (r : bytes) : Prop :=
  match r with
  | [] => True
  | c :: _ => c = nl
  end.

(** The line of a record, between the newlines of its block. *)
Definition line_of (projectIdStr directory bhard : bytes) : bytes :=
  projectIdStr ++ [colon] ++ directory ++ [colon] ++ bhard.

(** What a match of the restore pattern looks like: the text of a block,
    then its tag, a digit string, its directory and its limit. *)
Definition is_record (m : list bytes) : Prop :=
  exists ds directory bhard,
    m = [block_text ds directory bhard; ds; directory; bhard] /\
    ds <> [] /\ digit_string ds /\
    directory <> [] /\ no_newline directory /\
    bhard <> [] /\ no_newline bhard.

(** The record of a match is stale when its directory is reported
    missing. *)
Definition stale (env : Env) (m : list bytes) : bool :=
  match stat env (nth 2 m []) with
  | StatNotExist => true
  | _ => false
  end.

(** The call [restoreQuotas] owes a match: [RemoveProject] with the text
    and the tag of a stale record, [SetQuota] with the tag, directory and
    limit of any other. *)
Definition handled (env : Env) (m : list bytes) (c : call) : Prop :=
  if stale env m
  then exists err, c = CallRemoveProject (nth 0 m []) (match_id m) err
  else exists err,
      c = CallSetQuota (match_id m) (nth 2 m []) (nth 3 m []) err.

(** A [SetQuota] that returned an error. *)
Definition failed (c : call) : Prop :=
  match c with
  | CallSetQuota _ _ _ (Some _) => True
  | _ => False
  end.

(** The project id map once the stale records among [ms] are released. *)
Definition released (env : Env) (ms : list (list bytes))
    (ids : gmap N bool) : gmap N bool :=
  fold_left (fun ids m => if stale env m then delete (match_id m) ids else ids)
    ms ids.

(** The operations a client performs on a quotaer, and one more run of
    [restoreQuotas]. *)
Inductive op :=
| OpAddProject (directory bhard : bytes)
| OpRemoveProject (block : bytes) (projectId : N)
| OpSetQuota (projectId : N) (directory bhard : bytes)
| OpRestore.

Definition step (env : Env) (o : op) (q : State) : State :=
  match o with
  | OpAddProject directory bhard => snd (AddProject env directory bhard q)
  | OpRemoveProject block projectId =>
      snd (RemoveProject env block projectId q)
  | OpSetQuota projectId directory bhard =>
      snd (SetQuota env projectId directory bhard q)
  | OpRestore => snd (restoreQuotas env q)
  end.

Definition exec (env : Env) (ops : list op) (q : State) : State :=
  fold_left (fun q o => step env o q) ops q.

(** The operation releases tag [t] in state [q]: it is [RemoveProject]
    for [t], or a restore that finds a record with tag [t] stale. *)
Definition releases (env : Env) (q : State) (o : op) (t : N) : Prop :=
  match o with
  | OpRemoveProject _ projectId => projectId = t
  | OpRestore =>
      exists m : list bytes,
        m ∈ FindAllSubmatch restore_re (file q) /\
        stale env m = true /\ match_id m = t
  | _ => False
  end.

(** No operation of the sequence, run from [q], releases [t]. *)
Fixpoint never_released (env : Env) (t : N) (ops : list op) (q : State)
    : Prop :=
  match ops with
  | [] => True
  | o :: ops' =>
      ~ releases env q o t /\ never_released env t ops' (step env o q)
  end.

(** ** Hosts used in the examples *)

(** Every directory exists and nothing fails. *)
Definition env_ok : Env :=
  {| stat := fun _ => StatOk;
     readOk := fun _ => true;
     appendOk := fun _ _ => true;
     removeOk := fun _ _ => true;
     execOk := fun _ _ => true |}.

(** [xfs_quota] fails, the projects file can be written. *)
Definition env_ok_exec_fail : Env :=
  {| stat := fun _ => StatOk;
     readOk := fun _ => true;
     appendOk := fun _ _ => true;
     removeOk := fun _ _ => true;
     execOk := fun _ _ => false |}.

(** [xfs_quota] fails and the projects file cannot be rewritten. *)
Definition env_exec_remove_fail : Env :=
  {| stat := fun _ => StatOk;
     readOk := fun _ => true;
     appendOk := fun _ _ => true;
     removeOk := fun _ _ => false;
     execOk := fun _ _ => false |}.

(** The projects file cannot be rewritten; nothing else fails. *)
Definition env_remove_fail : Env :=
  {| stat := fun _ => StatOk;
     readOk := fun _ => true;
     appendOk := fun _ _ => true;
     removeOk := fun _ _ => false;
     execOk := fun _ _ => true |}.

(** No directory exists any more; nothing fails. *)
Definition env_gone : Env :=
  {| stat := fun _ => StatNotExist;
     readOk := fun _ => true;
     appendOk := fun _ _ => true;
     removeOk := fun _ _ => true;
     execOk := fun _ _ => true |}.

(** No directory exists any more and the projects file cannot be
    rewritten. *)
Definition env_gone_remove_fail : Env :=
  {| stat := fun _ => StatNotExist;
     readOk := fun _ => true;
     appendOk := fun _ _ => true;
     removeOk := fun _ _ => false;
     execOk := fun _ _ => true |}.

(** The projects file of the spec's scenarios. *)
Definition vol1_block : bytes := nl :: B "7:/data/vol1:5Gi" ++ [nl].

(** The block [AddProject] writes for [/data/vol1] under tag 1. *)
Definition vol1_tag1_block : bytes := nl :: B "1:/data/vol1:5Gi" ++ [nl].

Definition host_vol1 : Host :=
  {| validation := None; projects := Some vol1_block; createOk := true |}.

(** A projects file that ends in the line of a record without its final
    newline. *)
Definition host_unfinished : Host :=
  {| validation := None; projects := Some (nl :: B "1:d:1");
     createOk := true |}.

(** The projects file cannot be extended. *)
Definition env_append_fail : Env :=
  {| stat := fun _ => StatOk;
     readOk := fun _ => true;
     appendOk := fun _ _ => false;
     removeOk := fun _ _ => true;
     execOk := fun _ _ => true |}.

(** ** The checks of [newXfsQuotaer] on [xfsPath] (lines 58 to 80) *)

(** [strings.Contains(s, substr)]. *)
Definition Contains (s substr : bytes) : bool :=
  match strings.Index s substr with
  | Some _ => true
  | None => false
  end.

(** The bytes [strings.TrimSpace] drops without decoding: tab, newline,
    vertical tab, form feed, carriage return and space. *)
Definition asciiSpace (c : ascii) : bool :=
  let n := N_of_ascii c in ((9 <=? n) && (n <=? 13)) || (n =? 32).

(** A byte that starts or continues a multi-byte rune ([utf8.RuneSelf]
    and above). *)
Definition nonAscii (c : ascii) : bool := 128 <=? N_of_ascii c.

Section TrimSpace.
(** [strings.TrimFunc(s, unicode.IsSpace)], the path [TrimSpace] takes as
    soon as it meets a byte that is not ASCII. *)
Context (TrimUnicode : bytes -> bytes).

(** What a scan for the first byte to keep ends in. *)
Inductive scan := Kept (s : bytes) | Decode (s : bytes).

(** The first loop of [TrimSpace]: from the start. *)
Fixpoint trim_start (s : bytes) : scan :=
  match s with
  | [] => Kept []
  | c :: s' =>
      if nonAscii c then Decode s
      else if asciiSpace c then trim_start s'
      else Kept s
  end.

(** The second loop, from the end, on the reversed rest. *)
Fixpoint trim_stop (r : bytes) : scan :=
  match r with
  | [] => Kept []
  | c :: r' =>
      if nonAscii c then Decode (rev r)
      else if asciiSpace c then trim_stop r'
      else Kept (rev r)
  end.

(** [strings.TrimSpace(s)]. *)
Definition TrimSpace (s : bytes) : bytes :=
  match trim_start s with
  | Decode rest => TrimUnicode rest
  | Kept rest =>
      match trim_stop (rev rest) with
      | Decode rest' => TrimUnicode rest'
      | Kept rest' => rest'
      end
  end.

End TrimSpace.

(** The fields of [mount.Info] that [quota.go] reads. *)
Record MountInfo := {
  Mountpoint : bytes;
  Fstype : bytes;
  VfsOpts : bytes
}.

(** What the checks find: the verdict of [os.Stat(xfsPath)], the output
    of [stat -f -c %T xfsPath] ([None] when the command fails), the
    table [mount.GetMounts()] returns ([None] on its error), and whether
    [exec.LookPath("xfs_quota")] finds the tool. *)
Record Probe := {
  xfsPathStat : StatResult;
  statOutput : option bytes;
  GetMounts : option (list MountInfo);
  LookPath : bool
}.

(** The errors of lines 58 to 80, in the order of the checks. *)
Inductive CheckError :=
| ErrPathNotExist
| ErrIsXfs
| ErrNotXfs
| ErrGetMounts
| ErrNoMountEntry
| ErrNoProjectQuota
| ErrLookPath.

Section Checks.
Context (TrimUnicode : bytes -> bytes).
(** [path.Clean]. *)
Context (Clean : bytes -> bytes).

(** [isXfs]: [(false, err)] when the command fails, otherwise whether the
    trimmed output is ["xfs"]. *)
Definition isXfs (p : Probe) : bool * option CheckError :=
  match statOutput p with
  | None => (false, Some ErrIsXfs)
  | Some out =>
      if bool_decide (TrimSpace TrimUnicode out <> B "xfs") then (false, None)
      else (true, None)
  end.

(** The loop of [getMountEntry] over the entries. *)
Fixpoint find_entry (entries : list MountInfo) (mountpoint fstype : bytes)
    : option MountInfo :=
  match entries with
  | [] => None
  | e :: rest =>
      if bool_decide (Mountpoint e = mountpoint)
         && bool_decide (Fstype e = fstype)
      then Some e
      else find_entry rest mountpoint fstype
  end.

Definition getMountEntry (p : Probe) (mountpoint fstype : bytes)
    : option MountInfo * option CheckError :=
  match GetMounts p with
  | None => (None, Some ErrGetMounts)
  | Some entries =>
      match find_entry entries mountpoint fstype with
      | Some e => (Some e, None)
      | None => (None, Some ErrNoMountEntry)
      end
  end.

(** Lines 58 to 80 of [newXfsQuotaer]: the first check that fails, if
    any. *)
Definition check_xfsPath (xfsPath : bytes) (p : Probe) : option CheckError :=
  match xfsPathStat p with
  | StatNotExist => Some ErrPathNotExist
  | _ =>
      match isXfs p with
      | (_, Some e) => Some e
      | (false, None) => Some ErrNotXfs
      | (true, None) =>
          match getMountEntry p (Clean xfsPath) (B "xfs") with
          | (_, Some e) => Some e
          | (None, None) => Some ErrNoMountEntry
          | (Some entry, None) =>
              if negb (Contains (VfsOpts entry) (B "pquota"))
                 && negb (Contains (VfsOpts entry) (B "prjquota"))
              then Some ErrNoProjectQuota
              else if LookPath p then None else Some ErrLookPath
          end
      end
  end.

(** The host [newXfsQuotaer] works on, given what the checks find. *)
Definition host_of (xfsPath : bytes) (p : Probe) (projectsFile : option bytes)
    (canCreate : bool) : Host :=
  {| validation := option_map (fun _ => ErrValidation) (check_xfsPath xfsPath p);
     projects := projectsFile;
     createOk := canCreate |}.

End Checks.

(** A byte that is neither dropped nor decoded by [TrimSpace]. *)
Definition plain (c : ascii) : Prop :=
  nonAscii c = false /\ asciiSpace c = false.

(** An entry that is not the one looked for. *)
Definition other (mountpoint fstype : bytes) (e : MountInfo) : Prop :=
  ~ (Mountpoint e = mountpoint /\ Fstype e = fstype).

(** What [restoreQuotas] may do for the matches [ms] after reading the
    file: remove the text of one of them, or run the limit command with
    the limit and the tag of one of them. *)
Definition restore_event (ms : list (list bytes)) (e : event) : Prop :=
  exists m : list bytes,
    m ∈ ms /\
    (e = EvRemove (nth 0 m []) \/
     e = EvExec (limit_command (nth 3 m [])
                   (strconv.FormatUint (match_id m)))).

(** A directory that starts with a slash. *)
Definition absolute (directory : bytes) : bool :=
  match directory with
  | c :: _ => Ascii.eqb c "/"
  | [] => false
  end.

(** What the scan pattern returns for the line of a record: the line and
    its tag. *)
Definition scan_match_of (t : bytes * bytes * bytes) : list bytes :=
  let '(ds, directory, bhard) := t in [line_of ds directory bhard; ds].

Definition absolute_record (t : bytes * bytes * bytes) : bool :=
  let '(_, directory, _) := t in absolute directory.

(** The projects file after the calls [cs] of a run of [restoreQuotas]
    on the file [f]: a [RemoveProject] that returned no error took its
    text out wherever it occurred, any other call left the file as it
    was. *)
Definition file_after (cs : list call) (f : bytes) : bytes :=
  fold_left (fun f c =>
               match c with
               | CallRemoveProject block _ None => strings.RemoveAll f block
               | _ => f
               end) cs f.

(** The texts of the stale records among [ms]. *)
Definition stale_texts (env : Env) (ms : list (list bytes)) : list bytes :=
  map (fun m => nth 0 m []) (filter (fun m => stale env m = true) ms).

(** The number the digit string of a record stands for. *)
Definition numeral (t : bytes * bytes * bytes) : N :=
  let '(ds, _, _) := t in strconv.dec_value ds.

(** * Properties *)

(** ** Decimal numerals *)

Module strconv_facts.
Import strconv.

Lemma N_of_digit_char d : d < 10 -> N_of_ascii (digit_char d) = 48 + d.
Proof. intros H. unfold digit_char. apply N_ascii_embedding. lia. Qed.

Lemma is_digit_digit_char d : d < 10 -> is_digit (digit_char d) = true.
Proof.
  intros H. unfold is_digit. rewrite N_of_digit_char by done.
  apply andb_true_iff. split; apply N.leb_le; lia.
Qed.

Lemma digit_val_digit_char d : d < 10 -> digit_val (digit_char d) = d.
Proof. intros H. unfold digit_val. rewrite N_of_digit_char by done. lia. Qed.

Lemma is_digit_not_colon c : is_digit c = true -> c <> colon.
Proof. intros H ->. vm_compute in H. discriminate. Qed.

Lemma is_digit_not_nl c : is_digit c = true -> c <> nl.
Proof. intros H ->. vm_compute in H. discriminate. Qed.

Lemma digits_Forall fuel : forall n acc,
  Forall (fun c => is_digit c = true) acc ->
  Forall (fun c => is_digit c = true) (digits fuel n acc).
Proof.
  induction fuel as [|fuel IH]; intros n acc Hacc; simpl; [done|].
  assert (Hd : is_digit (digit_char (n mod 10)) = true).
  { apply is_digit_digit_char. apply N.mod_lt. lia. }
  destruct (n / 10 =? 0); [|apply IH]; by constructor.
Qed.

Lemma digits_not_nil fuel n acc : digits (S fuel) n acc <> [].
Proof.
  revert n acc. induction fuel as [|fuel IH]; intros n acc.
  - simpl. by destruct (n / 10 =? 0).
  - change (digits (S (S fuel)) n acc)
      with (let acc' := digit_char (n mod 10) :: acc in
            if n / 10 =? 0 then acc' else digits (S fuel) (n / 10) acc').
    simpl. destruct (n / 10 =? 0); [done|apply IH].
Qed.

Lemma digits_value fuel : forall n acc,
  n < 10 ^ N.of_nat fuel ->
  fold_left dec_step (digits fuel n acc) 0 = fold_left dec_step acc n.
Proof.
  induction fuel as [|fuel IH]; intros n acc Hn.
  - simpl in *. by replace n with 0 by lia.
  - rewrite Nat2N.inj_succ, N.pow_succ_r' in Hn. simpl.
    pose proof (N.div_mod n 10 ltac:(lia)) as Hdm.
    pose proof (N.mod_lt n 10 ltac:(lia)) as Hlt.
    destruct (N.eqb_spec (n / 10) 0) as [Hz|Hz].
    + simpl. unfold dec_step at 2. rewrite digit_val_digit_char by done.
      f_equal. lia.
    + rewrite IH.
      * simpl. unfold dec_step at 2. rewrite digit_val_digit_char by done.
        f_equal. lia.
      * apply N.Div0.div_lt_upper_bound. lia.
Qed.

Lemma FormatUint_digits n :
  Forall (fun c => is_digit c = true) (FormatUint n).
Proof. apply digits_Forall. constructor. Qed.

Lemma FormatUint_not_nil n : FormatUint n <> [].
Proof. apply digits_not_nil. Qed.

Lemma dec_value_FormatUint n : n < 2 ^ 64 -> dec_value (FormatUint n) = n.
Proof.
  intros Hn. unfold dec_value, FormatUint.
  rewrite digits_value; [done|].
  eapply N.lt_le_trans; [exact Hn|]. by vm_compute.
Qed.

Lemma forallb_is_digit s :
  Forall (fun c => is_digit c = true) s -> forallb is_digit s = true.
Proof. induction 1 as [|c s Hc _ IH]; simpl; [done|by rewrite Hc, IH]. Qed.

Lemma ParseUint_in_range s :
  s <> [] -> Forall (fun c => is_digit c = true) s ->
  dec_value s <= 65535 -> ParseUint s 16 = (dec_value s, None).
Proof.
  intros Hne Hd Hv. unfold ParseUint. destruct s as [|c s]; [done|].
  rewrite forallb_is_digit by done.
  change (2 ^ 16 - 1) with 65535. cbv zeta.
  destruct (N.ltb_spec 65535 (dec_value (c :: s))); [lia|done].
Qed.

Lemma ParseUint_saturates s :
  s <> [] -> Forall (fun c => is_digit c = true) s ->
  65535 < dec_value s -> ParseUint s 16 = (65535, Some ErrRange).
Proof.
  intros Hne Hd Hv. unfold ParseUint. destruct s as [|c s]; [done|].
  rewrite forallb_is_digit by done.
  change (2 ^ 16 - 1) with 65535. cbv zeta.
  destruct (N.ltb_spec 65535 (dec_value (c :: s))); [done|lia].
Qed.

Lemma ParseUint_FormatUint n :
  n <= 65535 -> ParseUint (FormatUint n) 16 = (n, None).
Proof.
  intros Hn.
  assert (Hv : dec_value (FormatUint n) = n)
    by (apply dec_value_FormatUint; eapply N.le_lt_trans; [exact Hn|done]).
  rewrite ParseUint_in_range; rewrite ?Hv; auto using FormatUint_not_nil,
    FormatUint_digits.
Qed.

End strconv_facts.

(** ** Greedy runs and backtracking *)

Module regexp_facts.

Section Plus.
Context {A : Type} (cls : ascii -> bool).
Implicit Types (k : @cont A) (a b rest : bytes).

Abbreviation All a := (Forall (fun c => cls c = true) a).

(** When the continuation fails after every non-empty part of the run,
    the loop ends up calling it where the loop started. *)
Lemma plus_loop_back k caps a rest : forall prev,
  All a -> stops cls rest ->
  (forall p a1 a2, a = a1 ++ a2 -> a1 <> [] ->
     k caps p (a2 ++ rest) = None) ->
  plus_loop cls caps prev (a ++ rest) k = k caps prev (a ++ rest).
Proof.
  induction a as [|c a IH]; intros prev Ha Hstop Hk.
  - destruct rest as [|c rest]; [done|].
    simpl in *. by rewrite Hstop.
  - apply Forall_cons in Ha as [Hc Ha]. simpl. rewrite Hc.
    rewrite IH; [|done|done|].
    + by rewrite (Hk (Some c) [c] a).
    + intros p a1 a2 -> Hne. by apply (Hk p (c :: a1) a2).
Qed.

(** The run is given back byte by byte until the continuation first
    succeeds: here after [a], with [b] returned to the input. *)
Lemma plus_loop_first k caps a b rest r : forall prev,
  All (a ++ b) -> stops cls rest ->
  (forall p b1 b2, b = b1 ++ b2 -> b1 <> [] ->
     k caps p (b2 ++ rest) = None) ->
  (forall p, k caps p (b ++ rest) = Some r) ->
  plus_loop cls caps prev (a ++ b ++ rest) k = Some r.
Proof.
  induction a as [|c a IH]; intros prev Hab Hstop Hnone Hsome.
  - simpl in *. rewrite plus_loop_back; auto.
  - simpl in Hab. apply Forall_cons in Hab as [Hc Hab].
    simpl. rewrite Hc. by rewrite IH.
Qed.

(** The same for the group [(x+)]: it captures [a]. *)
Lemma run_cap_plus k caps prev a b rest r :
  a <> [] -> All (a ++ b) -> stops cls rest ->
  (forall p b1 b2, b = b1 ++ b2 -> b1 <> [] ->
     k (caps ++ [a ++ b1]) p (b2 ++ rest) = None) ->
  (forall p, k (caps ++ [a]) p (b ++ rest) = Some r) ->
  run (Cap (Plus cls)) caps prev (a ++ b ++ rest) k = Some r.
Proof.
  intros Hne Hab Hstop Hnone Hsome.
  destruct a as [|c a]; [done|]. clear Hne.
  pose proof Hab as Hab'. simpl in Hab'.
  apply Forall_cons in Hab' as [Hc Hab'].
  cbn [run app]. rewrite Hc.
  set (s := c :: a ++ b ++ rest).
  assert (Htake : forall x y, s = x ++ y ->
            take (length s - length y) s = x).
  { intros x y ->. rewrite length_app.
    replace (length x + length y - length y)%nat with (length x) by lia.
    by rewrite take_app_length. }
  apply plus_loop_first; auto.
  - intros p b1 b2 -> Hb1.
    rewrite (Htake ((c :: a) ++ b1) (b2 ++ rest)).
    + by apply Hnone.
    + unfold s. by rewrite <- !app_assoc.
  - intros p. rewrite (Htake (c :: a) (b ++ rest)); [apply Hsome|done].
Qed.
(** Conversely, a success of the loop is a success of the continuation
    after some run of the class. *)
Lemma plus_loop_inv k caps s r : forall prev,
  plus_loop cls caps prev s k = Some r ->
  exists a rest p, s = a ++ rest /\ All a /\ k caps p rest = Some r.
Proof.
  induction s as [|c s IH]; intros prev H.
  - exists [], [], prev. by repeat split.
  - cbn [plus_loop] in H. destruct (cls c) eqn:Hc.
    + destruct (plus_loop cls caps (Some c) s k) as [r'|] eqn:Hl.
      * injection H as ->. apply IH in Hl as (a & rest & p & -> & Ha & Hk).
        exists (c :: a), rest, p. repeat split; [by constructor|done].
      * exists [], (c :: s), prev. by repeat split.
    + exists [], (c :: s), prev. by repeat split.
Qed.

Lemma run_cap_plus_inv k caps prev s r :
  run (Cap (Plus cls)) caps prev s k = Some r ->
  exists a rest p,
    s = a ++ rest /\ a <> [] /\ All a /\ k (caps ++ [a]) p rest = Some r.
Proof.
  cbn [run]. destruct s as [|c s]; [done|].
  destruct (cls c) eqn:Hc; [|done]. intros H.
  apply plus_loop_inv in H as (a & rest & p & -> & Ha & Hk).
  exists (c :: a), rest, p. split; [done|]. split; [done|].
  split; [by constructor|].
  replace (take (length (c :: a ++ rest) - length rest) (c :: a ++ rest))
    with (c :: a) in Hk; [done|].
  change (c :: a ++ rest) with ((c :: a) ++ rest). rewrite length_app.
  replace (length (c :: a) + length rest - length rest)%nat
    with (length (c :: a)) by lia.
  by rewrite take_app_length.
Qed.

End Plus.

End regexp_facts.

(** ** The pattern of [restoreQuotas] on a well-formed block *)

Module block_facts.
Import strconv regexp_facts.

Lemma cls_dot_true c : c <> nl -> cls_dot c = true.
Proof.
  intros H. unfold cls_dot. by destruct (Ascii.eqb_spec c nl).
Qed.

Lemma no_newline_dot s : no_newline s -> Forall (fun c => cls_dot c = true) s.
Proof. intros H. eapply Forall_impl; [exact H|apply cls_dot_true]. Qed.

Lemma digit_string_no_newline s : digit_string s -> no_newline s.
Proof.
  intros H. eapply Forall_impl; [exact H|].
  apply strconv_facts.is_digit_not_nl.
Qed.

Lemma digit_string_no_colon s : digit_string s -> no_colon s.
Proof.
  intros H. eapply Forall_impl; [exact H|].
  apply strconv_facts.is_digit_not_colon.
Qed.

Lemma block_text_app ds directory bhard tail :
  block_text ds directory bhard ++ tail
  = nl :: ds ++ colon :: directory ++ colon :: bhard ++ nl :: tail.
Proof.
  unfold block_text. simpl. f_equal.
  repeat (rewrite <- app_assoc; simpl). reflexivity.
Qed.

Section Steps.
Context {A : Type}.
Implicit Types (k : @cont A).

Lemma run_Seq r1 r2 caps prev s k :
  run (Seq r1 r2) caps prev s k
  = run r1 caps prev s (fun caps' prev' s' => run r2 caps' prev' s' k).
Proof. reflexivity. Qed.

Lemma run_Lit c caps prev s k :
  run (Lit c) caps prev (c :: s) k = k caps (Some c) s.
Proof. simpl. by rewrite Ascii.eqb_refl. Qed.

Lemma run_Lit_other c c' caps prev s k :
  c' <> c -> run (Lit c) caps prev (c' :: s) k = None.
Proof. intros H. simpl. destruct (Ascii.eqb_spec c c'); congruence. Qed.

Lemma run_Bol_nl caps s k :
  run Bol caps (Some nl) s k = k caps (Some nl) s.
Proof. reflexivity. Qed.

Lemma run_Eol_nl caps prev s k :
  run Eol caps prev (nl :: s) k = k caps prev (nl :: s).
Proof. reflexivity. Qed.
End Steps.

(** On a block the pattern has one way to succeed: the three groups are
    the tag, the directory and the limit, and the match ends with the
    block. *)
Lemma run_restore_re {A} (k : @cont A) prev ds directory bhard tail r :
  ds <> [] -> digit_string ds ->
  directory <> [] -> no_newline directory ->
  bhard <> [] -> no_newline bhard -> no_colon bhard ->
  (forall p, k [ds; directory; bhard] p tail = Some r) ->
  run restore_re [] prev
    (nl :: ds ++ colon :: directory ++ colon :: bhard ++ nl :: tail) k
  = Some r.
Proof.
  intros Hds Hdig Hdir Hdnl Hb Hbnl Hbc Hk. unfold restore_re.
  rewrite run_Seq, run_Lit, run_Seq, run_Bol_nl, run_Seq.
  apply (run_cap_plus cls_digit _ _ _ ds []); auto.
  { by rewrite app_nil_r. }
  { simpl. by vm_compute. }
  { intros ? b1 b2 Hnil Hne. by destruct b1. }
  intros ?. cbn [app].
  rewrite run_Seq, run_Lit, run_Seq.
  apply (run_cap_plus cls_dot _ _ _ directory (colon :: bhard)); auto.
  { apply no_newline_dot. apply Forall_app. split; [done|].
    constructor; [by vm_compute|done]. }
  { simpl. by vm_compute. }
  { intros p' b1 b2 Hsplit Hne.
    rewrite run_Seq.
    destruct b1 as [|x b1]; [done|]. injection Hsplit as Hx Hbhard. subst x.
    destruct b2 as [|y b2]; simpl app.
    - apply run_Lit_other. intros E. vm_compute in E. discriminate.
    - apply run_Lit_other. subst bhard.
      apply Forall_app in Hbc as [_ Hbc]. by inversion Hbc. }
  intros ?. cbn [app].
  rewrite run_Seq, run_Lit, run_Seq.
  apply (run_cap_plus cls_dot _ _ _ bhard []); auto.
  { rewrite app_nil_r. by apply no_newline_dot. }
  { simpl. by vm_compute. }
  { intros ? b1 b2 Hnil Hne. by destruct b1. }
  intros ?. cbn [app].
  rewrite run_Seq, run_Eol_nl, run_Lit. apply Hk.
Qed.

Lemma match_here_block prev ds directory bhard tail :
  ds <> [] -> digit_string ds ->
  directory <> [] -> no_newline directory ->
  bhard <> [] -> no_newline bhard -> no_colon bhard ->
  match_here restore_re prev (block_text ds directory bhard ++ tail)
  = Some [block_text ds directory bhard; ds; directory; bhard].
Proof.
  intros Hds Hdig Hdir Hdnl Hb Hbnl Hbc.
  unfold match_here. rewrite block_text_app.
  apply run_restore_re; auto. intros ?.
  rewrite <- block_text_app, length_app.
  replace (length (block_text ds directory bhard) + length tail
           - length tail)%nat
    with (length (block_text ds directory bhard)) by lia.
  by rewrite take_app_length.
Qed.

Lemma find_all_skip r a : forall prev tail,
  exists prev', find_all r prev (a ++ tail) (length a)
                = find_all r prev' tail 0.
Proof.
  induction a as [|c a IH]; intros prev tail; [by exists prev|].
  simpl. apply IH.
Qed.

(** A file made of such blocks is matched block by block. *)
Lemma find_all_blocks ts : forall prev,
  Forall well_formed ts ->
  find_all restore_re prev (concat (map text_of ts)) 0 = map match_of ts.
Proof.
  induction ts as [|[[ds directory] bhard] ts IH]; intros prev Hwf; [done|].
  apply Forall_cons in Hwf as [(?&?&?&?&?&?&?) Hwf].
  cbn [map concat text_of match_of].
  pose proof (match_here_block prev ds directory bhard
                (concat (map text_of ts))) as Hm.
  remember (block_text ds directory bhard) as blk eqn:Hblk.
  assert (Hcons : exists x, blk = nl :: x) by (subst blk; by eexists).
  destruct Hcons as [x ->]. cbn [app find_all] in *.
  rewrite Hm by done. f_equal. cbn [hd length].
  rewrite Nat.sub_succ, Nat.sub_0_r.
  destruct (find_all_skip restore_re x (Some nl) (concat (map text_of ts)))
    as [prev' ->].
  by apply IH.
Qed.

Lemma FindAllSubmatch_blocks ts :
  Forall well_formed ts ->
  FindAllSubmatch restore_re (concat (map text_of ts)) = map match_of ts.
Proof. apply find_all_blocks. Qed.

Lemma take_app_sub (l k : bytes) :
  take (length (l ++ k) - length k) (l ++ k) = l.
Proof.
  rewrite length_app.
  replace (length l + length k - length k)%nat with (length l) by lia.
  by rewrite take_app_length.
Qed.

Lemma run_Lit_inv {A} (k : @cont A) c caps prev s r :
  run (Lit c) caps prev s k = Some r ->
  exists s', s = c :: s' /\ k caps (Some c) s' = Some r.
Proof.
  cbn [run]. destruct s as [|c' s']; [done|].
  destruct (Ascii.eqb_spec c c') as [<-|]; [|done]. by exists s'.
Qed.

Lemma run_Bol_inv {A} (k : @cont A) caps prev s r :
  run Bol caps prev s k = Some r -> k caps prev s = Some r.
Proof.
  cbn [run]. destruct prev as [p|]; [|done]. by destruct (Ascii.eqb p nl).
Qed.

Lemma run_Eol_inv {A} (k : @cont A) caps prev s r :
  run Eol caps prev s k = Some r -> k caps prev s = Some r.
Proof.
  cbn [run]. destruct s as [|c s]; [done|]. by destruct (Ascii.eqb c nl).
Qed.

Lemma dot_no_newline s : Forall (fun c => cls_dot c = true) s -> no_newline s.
Proof.
  intros H. eapply Forall_impl; [exact H|]. intros c Hc ->.
  by vm_compute in Hc.
Qed.

(** Every success of the pattern reads a tag, a directory and a limit off
    one line framed by newlines. *)
Lemma run_restore_re_inv {A} (k : @cont A) prev s r :
  run restore_re [] prev s k = Some r ->
  exists ds directory bhard tail p,
    s = block_text ds directory bhard ++ tail /\
    ds <> [] /\ digit_string ds /\
    directory <> [] /\ no_newline directory /\
    bhard <> [] /\ no_newline bhard /\
    k [ds; directory; bhard] p tail = Some r.
Proof.
  unfold restore_re. intros H.
  rewrite run_Seq in H. apply run_Lit_inv in H as (s1 & -> & H).
  rewrite run_Seq in H. apply run_Bol_inv in H.
  rewrite run_Seq in H.
  apply run_cap_plus_inv in H as (ds & s2 & p2 & -> & Hds & Hdig & H).
  rewrite run_Seq in H. apply run_Lit_inv in H as (s3 & -> & H).
  rewrite run_Seq in H.
  apply run_cap_plus_inv in H as (directory & s4 & p4 & -> & Hdir & Hdd & H).
  rewrite run_Seq in H. apply run_Lit_inv in H as (s5 & -> & H).
  rewrite run_Seq in H.
  apply run_cap_plus_inv in H as (bhard & s6 & p6 & -> & Hb & Hbd & H).
  rewrite run_Seq in H. apply run_Eol_inv in H.
  apply run_Lit_inv in H as (tail & -> & H).
  exists ds, directory, bhard, tail, (Some nl).
  rewrite block_text_app. repeat split; auto using dot_no_newline.
Qed.

Lemma match_here_restore_inv prev s m :
  match_here restore_re prev s = Some m -> is_record m.
Proof.
  unfold match_here. intros H.
  apply run_restore_re_inv
    in H as (ds & directory & bhard & tail & p & -> & ? & ? & ? & ? & ? & ? & H).
  exists ds, directory, bhard. rewrite take_app_sub in H.
  injection H as <-. by repeat split.
Qed.

(** Every match [restoreQuotas] iterates over is the text of a block
    followed by its tag, a digit string, its directory and its limit. *)
Lemma FindAllSubmatch_restore_inv content m :
  m ∈ FindAllSubmatch restore_re content -> is_record m.
Proof.
  unfold FindAllSubmatch. generalize (@None ascii) at 1. generalize 0%nat.
  induction content as [|c content IH]; intros skip prev Hin.
  - by apply elem_of_nil in Hin.
  - cbn [find_all] in Hin. destruct skip as [|skip]; [|by eapply IH].
    destruct (match_here restore_re prev (c :: content)) as [m0|] eqn:Hm;
      [|by eapply IH].
    apply elem_of_cons in Hin as [->|Hin]; [|by eapply IH].
    by eapply match_here_restore_inv.
Qed.

Lemma prefix_records content processed rest :
  FindAllSubmatch restore_re content = processed ++ rest ->
  Forall is_record processed.
Proof.
  intros H. apply Forall_forall. intros m Hin.
  apply (FindAllSubmatch_restore_inv content). rewrite H.
  apply elem_of_app. by left.
Qed.

End block_facts.

(** ** Removing an occurrence *)

Module strings_facts.
Import strings.

Lemma HasPrefix_app p t : HasPrefix (p ++ t) p = true.
Proof.
  induction p as [|c p IH]; simpl; [done|].
  rewrite Ascii.eqb_refl, IH. reflexivity.
Qed.

Lemma HasPrefix_refl p : HasPrefix p p = true.
Proof. rewrite <- (app_nil_r p) at 1. apply HasPrefix_app. Qed.

Lemma drop_all_skip old a s :
  drop_all old (a ++ s) (length a) = drop_all old s 0.
Proof. induction a as [|c a IH]; [done|]. simpl. apply IH. Qed.

Lemma drop_all_skip_all old s : drop_all old s (length s) = [].
Proof.
  rewrite <- (app_nil_r s) at 1. rewrite drop_all_skip. reflexivity.
Qed.

Lemma Index_cons c s substr :
  Index (c :: s) substr
  = if HasPrefix (c :: s) substr then Some O
    else option_map S (Index s substr).
Proof. reflexivity. Qed.

(** When the text appended last is also its first occurrence, deleting
    the text gives back what was there before. *)
Lemma RemoveAll_appended f old :
  old <> [] -> Index (f ++ old) old = Some (length f) ->
  RemoveAll (f ++ old) old = f.
Proof.
  intros Hne. destruct old as [|o old]; [done|]. clear Hne.
  unfold RemoveAll. induction f as [|c f IH]; intros Hidx.
  - cbn [app drop_all]. rewrite HasPrefix_refl. cbn [length].
    rewrite Nat.sub_succ, Nat.sub_0_r. apply drop_all_skip_all.
  - cbn [app length] in Hidx. rewrite Index_cons in Hidx.
    cbn [app drop_all].
    destruct (HasPrefix (c :: f ++ o :: old) (o :: old)); [done|].
    f_equal. apply IH.
    destruct (Index (f ++ o :: old) (o :: old)); cbn in Hidx; congruence.
Qed.

End strings_facts.

(** ** A projects file made of blocks *)

Module store_facts.
Import strings strings_facts.

Lemma HasPrefix_cons_ne c s p prefix :
  c <> p -> HasPrefix (c :: s) (p :: prefix) = false.
Proof.
  intros H. simpl. destruct (Ascii.eqb_spec p c); [congruence|done].
Qed.

Lemma HasPrefix_cons_eq c s prefix :
  HasPrefix (c :: s) (c :: prefix) = HasPrefix s prefix.
Proof. simpl. by rewrite Ascii.eqb_refl. Qed.

(** Two lines that start at the same place are the same line. *)
Lemma HasPrefix_line x : forall y r,
  no_newline x -> no_newline y ->
  HasPrefix (x ++ nl :: r) (y ++ [nl]) = true -> x = y.
Proof.
  induction x as [|c x IH]; intros y r Hx Hy H.
  - destruct y as [|d y]; [done|]. cbn [app] in H.
    apply Forall_cons in Hy as [Hd _].
    rewrite HasPrefix_cons_ne in H by congruence. discriminate.
  - apply Forall_cons in Hx as [Hc Hx].
    destruct y as [|d y]; cbn [app] in H.
    + rewrite HasPrefix_cons_ne in H by done. discriminate.
    + apply Forall_cons in Hy as [Hd Hy].
      destruct (decide (c = d)) as [->|Hne].
      * rewrite HasPrefix_cons_eq in H. f_equal. by eapply IH.
      * rewrite HasPrefix_cons_ne in H by done. discriminate.
Qed.

(** No framed line starts inside a line. *)
Lemma Index_in_line y x : forall r,
  no_newline x ->
  Index (x ++ r) (framed y) = option_map (Nat.add (length x)) (Index r (framed y)).
Proof.
  induction x as [|c x IH]; intros r Hx.
  - simpl. by destruct (Index r (framed y)).
  - apply Forall_cons in Hx as [Hc Hx]. cbn [app length].
    rewrite Index_cons. unfold framed at 1.
    rewrite HasPrefix_cons_ne by done. rewrite IH by done.
    by destruct (Index r (framed y)).
Qed.

(** No framed line starts at the newline that ends a block. *)
Lemma Index_block_end y r :
  y <> [] -> no_newline y -> starts_nl r ->
  Index (nl :: r) (framed y) = option_map S (Index r (framed y)).
Proof.
  intros Hne Hy Hr. rewrite Index_cons. unfold framed at 1.
  rewrite HasPrefix_cons_eq.
  destruct y as [|d y]; [done|]. apply Forall_cons in Hy as [Hd _].
  destruct r as [|c r]; [done|]. simpl in Hr. subst c. cbn [app].
  by rewrite HasPrefix_cons_ne by congruence.
Qed.

(** Past a block that is not the line looked for. *)
Lemma Index_skip_block x y r :
  no_newline x -> y <> [] -> no_newline y -> starts_nl r -> x <> y ->
  Index (framed x ++ r) (framed y)
  = option_map (Nat.add (length (framed x))) (Index r (framed y)).
Proof.
  intros Hx Hne Hy Hr Hxy. unfold framed at 1 3. cbn [app].
  rewrite Index_cons. unfold framed at 1. rewrite HasPrefix_cons_eq.
  rewrite <- app_assoc. cbn [app].
  destruct (HasPrefix (x ++ nl :: r) (y ++ [nl])) eqn:Hp.
  { by apply HasPrefix_line in Hp. }
  rewrite Index_in_line by done. rewrite Index_block_end by done.
  destruct (Index r (framed y)) as [n|]; [|done].
  cbn [option_map length]. f_equal. rewrite length_app. simpl. lia.
Qed.

(** In a file of blocks followed by a block that is none of them, the
    text of the last block first occurs where that block starts. *)
Lemma Index_appended_block xs y :
  Forall (fun x => x <> [] /\ no_newline x) xs ->
  y <> [] -> no_newline y -> y ∉ xs ->
  Index (concat (map framed xs) ++ framed y) (framed y)
  = Some (length (concat (map framed xs))).
Proof.
  intros Hxs Hne Hy Hnotin. induction xs as [|x xs IH].
  - simpl. unfold framed. rewrite Index_cons. by rewrite HasPrefix_refl.
  - apply Forall_cons in Hxs as [[Hxne Hx] Hxs].
    apply not_elem_of_cons in Hnotin as [Hxy Hnotin].
    cbn [map concat]. rewrite <- app_assoc.
    rewrite Index_skip_block; try done.
    + rewrite IH by done. simpl. by rewrite (length_app (x ++ [nl])).
    + by destruct xs.
Qed.

Lemma block_text_framed ds directory bhard :
  block_text ds directory bhard = framed (line_of ds directory bhard).
Proof.
  unfold block_text, framed, line_of. simpl. f_equal.
  repeat (rewrite <- app_assoc; simpl). reflexivity.
Qed.

Lemma line_of_no_newline ds directory bhard :
  digit_string ds -> no_newline directory -> no_newline bhard ->
  no_newline (line_of ds directory bhard).
Proof.
  intros Hds Hd Hb. unfold line_of.
  repeat (apply Forall_app; split); try done.
  - eapply Forall_impl; [exact Hds|]. apply strconv_facts.is_digit_not_nl.
  - by repeat constructor.
  - by repeat constructor.
Qed.

(** A projects file made of blocks, to which [AddProject] appends a block
    that is none of them: the appended copy is the first occurrence of
    its text, and deleting the text gives the file back. *)
Lemma RemoveAll_appended_block xs projectId directory bhard :
  Forall (fun x => x <> [] /\ no_newline x) xs ->
  no_newline directory -> no_newline bhard ->
  line_of (strconv.FormatUint projectId) directory bhard ∉ xs ->
  let f := concat (map framed xs) in
  let block := block_of projectId directory bhard in
  Index (f ++ block) block = Some (length f) /\
  RemoveAll (f ++ block) block = f.
Proof.
  intros Hxs Hd Hb Hnotin f block.
  assert (Hidx : Index (f ++ block) block = Some (length f)).
  { unfold block, block_of. rewrite block_text_framed.
    apply Index_appended_block; try done.
    - unfold line_of. pose proof (strconv_facts.FormatUint_not_nil projectId).
      by destruct (strconv.FormatUint projectId).
    - apply line_of_no_newline; try done.
      apply strconv_facts.FormatUint_digits. }
  split; [done|]. by apply RemoveAll_appended.
Qed.

End store_facts.

(** ** The allocator *)

Module allocator_facts.

Lemma first_free_spec ids n : forall i id,
  first_free ids n i = Some id ->
  ids !! id = None /\ i <= id /\ id < i + N.of_nat n.
Proof.
  induction n as [|n IH]; intros i id H; [done|].
  cbn [first_free] in H. case_bool_decide as Hi.
  - injection H as <-. split; [done|lia].
  - apply IH in H as (? & ? & ?). split; [done|lia].
Qed.

Lemma free_id_spec ids id :
  free_id ids = Some id ->
  ids !! id = None /\ 1 <= id /\ id <= MaxUint16.
Proof.
  unfold free_id. intros H. apply first_free_spec in H as (? & ? & H).
  rewrite N2Nat.id in H. split; [done|]. unfold MaxUint16 in *. lia.
Qed.

(** Allocating a tag and releasing it again leaves the map as it was. *)
Lemma release_allocated ids id :
  free_id ids = Some id -> delete id (<[id := true]> ids) = ids.
Proof. intros H. apply delete_insert_id. by apply free_id_spec. Qed.

End allocator_facts.

(** ** [AddProject], [RemoveProject], [SetQuota] *)

Module quota_facts.
Import allocator_facts.

Section WithEnv.
Context (env : Env).

(** The three ways through [AddProject] once a tag is allocated. *)
Lemma AddProject_append_fails directory bhard q id :
  free_id (projectIds q) = Some id ->
  appendOk env (log q) (block_of id directory bhard) = false ->
  AddProject env directory bhard q
  = (Some ([], 0,
           Some (ErrAddBlock (block_of id directory bhard)
                   (ErrFile (EvAppend (block_of id directory bhard))))),
     {| projectIds := delete id (<[id := true]> (projectIds q));
        file := file q;
        log := log q ++ [EvAppend (block_of id directory bhard)];
        calls := calls q |}).
Proof.
  intros Hid Hok.
  unfold AddProject, generateId, addToFile, deleteId, bind, gets,
    modify, ret. rewrite Hid. simpl. rewrite Hok. reflexivity.
Qed.

Lemma AddProject_associate_fails directory bhard q id :
  let block := block_of id directory bhard in
  let command := project_command directory (strconv.FormatUint id) in
  free_id (projectIds q) = Some id ->
  appendOk env (log q) block = true ->
  execOk env (log q ++ [EvAppend block]) command = false ->
  AddProject env directory bhard q
  = (Some ([], 0, Some (ErrXfsQuota command)),
     {| projectIds := delete id (<[id := true]> (projectIds q));
        file :=
          if removeOk env ((log q ++ [EvAppend block]) ++ [EvExec command])
               block
          then strings.RemoveAll (file q ++ block) block
          else file q ++ block;
        log := ((log q ++ [EvAppend block]) ++ [EvExec command])
               ++ [EvRemove block];
        calls := calls q |}).
Proof.
  intros block command Hid Hok Hexec.
  unfold AddProject, generateId, addToFile, xfs_quota, removeFromFile,
    deleteId, bind, gets, modify, ret. rewrite Hid. simpl.
  fold block. rewrite Hok. simpl. fold command. rewrite Hexec. simpl.
  by destruct (removeOk env _ block).
Qed.

Lemma AddProject_succeeds directory bhard q id :
  let block := block_of id directory bhard in
  let command := project_command directory (strconv.FormatUint id) in
  free_id (projectIds q) = Some id ->
  appendOk env (log q) block = true ->
  execOk env (log q ++ [EvAppend block]) command = true ->
  AddProject env directory bhard q
  = (Some (block, id, None),
     {| projectIds := <[id := true]> (projectIds q);
        file := file q ++ block;
        log := (log q ++ [EvAppend block]) ++ [EvExec command];
        calls := calls q |}).
Proof.
  intros block command Hid Hok Hexec.
  unfold AddProject, generateId, addToFile, xfs_quota,
    bind, gets, modify, ret. rewrite Hid. simpl.
  fold block. rewrite Hok. simpl. fold command. by rewrite Hexec.
Qed.

Lemma AddProject_exhausted directory bhard q :
  free_id (projectIds q) = None ->
  AddProject env directory bhard q = (None, q).
Proof.
  intros Hid. unfold AddProject, generateId, bind, gets, ret.
  by rewrite Hid.
Qed.

(** A run of [AddProject] that returns has allocated a tag. *)
Lemma AddProject_allocates directory bhard q r q' :
  AddProject env directory bhard q = (Some r, q') ->
  exists id, free_id (projectIds q) = Some id.
Proof.
  intros H. destruct (free_id (projectIds q)) as [id|] eqn:Hid; [eauto|].
  by rewrite AddProject_exhausted in H.
Qed.

Lemma RemoveProject_eq block projectId q :
  RemoveProject env block projectId q
  = (if removeOk env (log q) block then None
     else Some (ErrFile (EvRemove block)),
     {| projectIds := delete projectId (projectIds q);
        file := if removeOk env (log q) block
                then strings.RemoveAll (file q) block else file q;
        log := log q ++ [EvRemove block];
        calls := calls q |}).
Proof.
  unfold RemoveProject, deleteId, removeFromFile, bind, gets, modify, ret.
  simpl. by destruct (removeOk env (log q) block).
Qed.

Lemma SetQuota_eq projectId directory bhard q :
  SetQuota env projectId directory bhard q
  = if map_index (projectIds q) projectId then
      let command := limit_command bhard (strconv.FormatUint projectId) in
      (if execOk env (log q) command then None
       else Some (ErrXfsQuota command),
       add_event (EvExec command) q)
    else (Some (ErrNotAdded projectId), q).
Proof.
  unfold SetQuota, xfs_quota, bind, gets, modify, ret. simpl.
  destruct (map_index (projectIds q) projectId); simpl; [|done].
  by destruct (execOk env (log q) _).
Qed.

End WithEnv.
End quota_facts.

(** ** [restoreQuotas] record by record *)

Module restore_facts.
Import quota_facts.

Section WithEnv.
Context (env : Env).

Lemma restore_loop_stale m ms q :
  stale env m = true ->
  restore_loop env (m :: ms) q
  = let r := RemoveProject env (nth 0 m []) (match_id m) q in
    restore_loop env ms
      (add_call (CallRemoveProject (nth 0 m []) (match_id m) (fst r)) (snd r)).
Proof.
  unfold stale. intros Hs. cbn [restore_loop].
  destruct (stat env (nth 2 m [])); try discriminate.
  unfold bind, modify.
  by destruct (RemoveProject env (nth 0 m []) (match_id m) q).
Qed.

Lemma restore_loop_present m ms q :
  stale env m = false ->
  restore_loop env (m :: ms) q
  = let r := SetQuota env (match_id m) (nth 2 m []) (nth 3 m []) q in
    let q2 := add_call
                (CallSetQuota (match_id m) (nth 2 m []) (nth 3 m []) (fst r))
                (snd r) in
    match fst r with
    | Some e => (Some (ErrRestoreQuota (nth 2 m []) e), q2)
    | None => restore_loop env ms q2
    end.
Proof.
  unfold stale. intros Hs. cbn [restore_loop].
  destruct (stat env (nth 2 m [])); try discriminate;
    unfold bind, modify, ret;
    destruct (SetQuota env (match_id m) (nth 2 m []) (nth 3 m []) q)
      as [[e|] q2]; reflexivity.
Qed.

Lemma SetQuota_projectIds projectId directory bhard q :
  projectIds (snd (SetQuota env projectId directory bhard q)) = projectIds q.
Proof.
  rewrite SetQuota_eq. by destruct (map_index (projectIds q) projectId).
Qed.

Lemma SetQuota_calls projectId directory bhard q :
  calls (snd (SetQuota env projectId directory bhard q)) = calls q.
Proof.
  rewrite SetQuota_eq. by destruct (map_index (projectIds q) projectId).
Qed.

Lemma SetQuota_log projectId directory bhard q :
  log q `prefix_of` log (snd (SetQuota env projectId directory bhard q)).
Proof.
  rewrite SetQuota_eq. destruct (map_index (projectIds q) projectId); simpl.
  - by apply prefix_app_r.
  - done.
Qed.

Lemma prefix_elem {X} (l1 l2 : list X) x :
  l1 `prefix_of` l2 -> x ∈ l1 -> x ∈ l2.
Proof. intros [k ->] Hx. apply elem_of_app. by left. Qed.

(** What a run of the loop over [ms] did: it handled a prefix of [ms],
    one call per record and in file order, released the stale records of
    that prefix, and stopped early only on a [SetQuota] that failed. *)
Lemma restore_loop_trace ms : forall q err q',
  restore_loop env ms q = (err, q') ->
  exists processed rest newcalls,
    ms = processed ++ rest /\
    calls q' = calls q ++ newcalls /\
    Forall2 (handled env) processed newcalls /\
    projectIds q' = released env processed (projectIds q) /\
    log q `prefix_of` log q' /\
    Forall (fun m => stale env m = true -> EvRemove (nth 0 m []) ∈ log q')
      processed /\
    match err with
    | None => rest = [] /\ Forall (fun c => ~ failed c) newcalls
    | Some e =>
        exists pre m e0 cs,
          processed = pre ++ [m] /\ stale env m = false /\
          e = ErrRestoreQuota (nth 2 m []) e0 /\
          newcalls = cs ++ [CallSetQuota (match_id m) (nth 2 m [])
                              (nth 3 m []) (Some e0)] /\
          Forall (fun c => ~ failed c) cs
    end.
Proof.
  induction ms as [|m ms IH]; intros q err q' H.
  - injection H as <- <-. exists [], [], [].
    repeat split; rewrite ?app_nil_r; auto; constructor.
  - destruct (stale env m) eqn:Hst.
    + rewrite restore_loop_stale in H by done. cbv zeta in H.
      rewrite RemoveProject_eq in H. cbn [fst snd] in H.
      set (c := CallRemoveProject _ _ _) in H.
      apply IH in H as (processed & rest & newcalls & -> & Hc & Hh & Hids
                        & Hlog & Hrm & Herr).
      cbn [calls projectIds log add_call] in Hc, Hids, Hlog.
      exists (m :: processed), rest, (c :: newcalls).
      split; [done|]. split; [by rewrite Hc, <- app_assoc|].
      split. { constructor; [|done]. unfold handled. rewrite Hst. by eexists. }
      split. { by rewrite Hids; unfold released; cbn [fold_left]; rewrite Hst. }
      assert (Hpre : log q `prefix_of` log q').
      { etrans; [|exact Hlog]. by apply prefix_app_r. }
      split; [done|]. split.
      { constructor; [|done]. intros _.
        eapply prefix_elem; [exact Hlog|]. apply elem_of_app. right.
        by apply list_elem_of_singleton. }
      destruct err as [e|].
      * destruct Herr as (pre & m0 & e0 & cs & -> & ? & ? & -> & ?).
        exists (m :: pre), m0, e0, (c :: cs).
        do 4 (split; [done|]). constructor; [by intros []|done].
      * destruct Herr as [-> Hf]. split; [done|].
        constructor; [by intros []|done].
    + rewrite restore_loop_present in H by done. cbv zeta in H.
      pose proof (SetQuota_projectIds (match_id m) (nth 2 m []) (nth 3 m []) q)
        as Hids0.
      pose proof (SetQuota_calls (match_id m) (nth 2 m []) (nth 3 m []) q)
        as Hc0.
      pose proof (SetQuota_log (match_id m) (nth 2 m []) (nth 3 m []) q)
        as Hlog0.
      destruct (SetQuota env (match_id m) (nth 2 m []) (nth 3 m []) q)
        as [[e0|] q2]; cbn [fst snd] in *.
      * injection H as <- <-.
        exists [m], ms, [CallSetQuota (match_id m) (nth 2 m [])
                           (nth 3 m []) (Some e0)].
        cbn [calls projectIds log add_call]. rewrite Hc0, Hids0.
        split; [done|]. split; [done|].
        split. { constructor; [|done]. unfold handled. rewrite Hst.
                 by eexists. }
        split. { unfold released. cbn [fold_left]. by rewrite Hst. }
        split; [done|].
        split. { constructor; [|done]. by rewrite Hst. }
        exists [], m, e0, []. by repeat split.
      * set (c := CallSetQuota _ _ _ _) in H.
        apply IH in H as (processed & rest & newcalls & -> & Hc & Hh & Hids
                          & Hlog & Hrm & Herr).
        cbn [calls projectIds log add_call] in Hc, Hids, Hlog.
        rewrite Hc0 in Hc. rewrite Hids0 in Hids.
        exists (m :: processed), rest, (c :: newcalls).
        split; [done|]. split; [by rewrite Hc, <- app_assoc|].
        split. { constructor; [|done]. unfold handled. rewrite Hst.
                 by eexists. }
        split. { by rewrite Hids; unfold released; cbn [fold_left];
                   rewrite Hst. }
        split; [by etrans|].
        split. { constructor; [|done]. by rewrite Hst. }
        destruct err as [e|].
        -- destruct Herr as (pre & m0 & e1 & cs & -> & ? & ? & -> & ?).
           exists (m :: pre), m0, e1, (c :: cs).
           do 4 (split; [done|]). constructor; [by intros []|done].
        -- destruct Herr as [-> Hf]. split; [done|].
           constructor; [by intros []|done].
Qed.

Lemma released_None ms : forall ids id,
  ids !! id = None -> released env ms ids !! id = None.
Proof.
  induction ms as [|m ms IH]; intros ids id H; [done|].
  unfold released. cbn [fold_left]. apply IH.
  destruct (stale env m); [|done]. rewrite lookup_delete_None. by right.
Qed.

Lemma released_stale ms : forall ids m,
  m ∈ ms -> stale env m = true ->
  released env ms ids !! match_id m = None.
Proof.
  induction ms as [|m0 ms IH]; intros ids m Hin Hst.
  - by apply elem_of_nil in Hin.
  - unfold released. cbn [fold_left]. apply elem_of_cons in Hin as [->|Hin].
    + rewrite Hst. apply released_None. apply lookup_delete_eq.
    + by apply IH.
Qed.

Lemma released_other ms : forall ids id,
  (forall m, m ∈ ms -> stale env m = true -> match_id m <> id) ->
  released env ms ids !! id = ids !! id.
Proof.
  induction ms as [|m0 ms IH]; intros ids id H; [done|].
  unfold released. cbn [fold_left].
  change (released env ms (if stale env m0 then delete (match_id m0) ids
                           else ids) !! id = ids !! id).
  rewrite IH.
  - destruct (stale env m0) eqn:Hst; [|done].
    apply lookup_delete_ne. apply H; [by left|done].
  - intros m Hin. apply H. by right.
Qed.

(** A tag leaves the map during the loop only as the tag of a stale
    record. *)
Lemma released_inv ms : forall ids id v,
  ids !! id = Some v -> released env ms ids !! id = None ->
  exists m, m ∈ ms /\ stale env m = true /\ match_id m = id.
Proof.
  induction ms as [|m0 ms IH]; intros ids id v Hin Hout.
  - unfold released in Hout. simpl in Hout. congruence.
  - unfold released in Hout. cbn [fold_left] in Hout.
    destruct (stale env m0) eqn:Hst.
    + destruct (decide (match_id m0 = id)) as [Heq|Hne].
      * exists m0. split; [by left|done].
      * destruct (IH (delete (match_id m0) ids) id v) as (m & ? & ? & ?);
          [by rewrite lookup_delete_ne|done|].
        exists m. split; [by right|done].
    + destruct (IH ids id v) as (m & ? & ? & ?); [done|done|].
      exists m. split; [by right|done].
Qed.

Lemma restoreQuotas_read q :
  readOk env (log q) = true ->
  restoreQuotas env q
  = restore_loop env (FindAllSubmatch restore_re (file q))
      (add_event EvReadFile q).
Proof.
  intros H. unfold restoreQuotas, ReadFile, bind, gets, modify, ret.
  simpl. by rewrite H.
Qed.

Lemma restoreQuotas_unread q :
  readOk env (log q) = false ->
  restoreQuotas env q
  = (Some (ErrFile EvReadFile), add_event EvReadFile q).
Proof.
  intros H. unfold restoreQuotas, ReadFile, bind, gets, modify, ret.
  simpl. by rewrite H.
Qed.

(** What [restoreQuotas] does to the project id map: each tag keeps its
    entry or is the tag of a stale record of the file. *)
Lemma restoreQuotas_projectIds q id :
  projectIds (snd (restoreQuotas env q)) !! id = projectIds q !! id \/
  (projectIds (snd (restoreQuotas env q)) !! id = None /\
   exists m, m ∈ FindAllSubmatch restore_re (file q) /\
             stale env m = true /\ match_id m = id).
Proof.
  destruct (readOk env (log q)) eqn:Hread.
  - rewrite restoreQuotas_read by done.
    destruct (restore_loop env _ (add_event EvReadFile q)) as [err q'] eqn:H.
    apply restore_loop_trace in H
      as (processed & rest & newcalls & Hms & _ & _ & Hids & _).
    cbn [file projectIds add_event snd] in *. rewrite Hids.
    destruct (decide (Exists (fun m => stale env m = true /\ match_id m = id)
                        processed)) as [Hex|Hno].
    + right. apply Exists_exists in Hex as (m & Hin & Hst & <-).
      split; [by apply released_stale|].
      exists m. rewrite Hms. split; [|done]. apply elem_of_app. by left.
    + left. apply released_other. intros m Hin Hst Heq.
      apply Hno. apply Exists_exists. by exists m.
  - rewrite restoreQuotas_unread by done. by left.
Qed.

End WithEnv.
End restore_facts.

(** ** Operations in sequence, the scan, and files of blocks *)

Import strconv strings quota_facts allocator_facts block_facts restore_facts.

(** An operation that does not release [t] leaves [t] in the map. *)
Lemma step_keeps_tag env o q t :
  projectIds q !! t = Some true ->
  ~ releases env q o t ->
  projectIds (step env o q) !! t = Some true.
Proof.
  intros Ht Hrel. destruct o as [directory bhard|block id|id directory bhard|];
    cbn [step releases] in *.
  - destruct (free_id (projectIds q)) as [tag|] eqn:Htag.
    + pose proof (free_id_spec _ _ Htag) as (Hfree & _).
      assert (tag <> t) by congruence.
      set (blk := block_of tag directory bhard).
      set (command := project_command directory (FormatUint tag)).
      destruct (appendOk env (log q) blk) eqn:Happ;
        [destruct (execOk env (log q ++ [EvAppend blk]) command) eqn:Hexec|].
      * rewrite (AddProject_succeeds env directory bhard q tag) by done.
        cbn [snd projectIds]. by rewrite lookup_insert_ne.
      * rewrite (AddProject_associate_fails env directory bhard q tag)
          by done.
        cbn [snd projectIds]. by rewrite release_allocated.
      * rewrite (AddProject_append_fails env directory bhard q tag) by done.
        cbn [snd projectIds]. by rewrite release_allocated.
    + by rewrite AddProject_exhausted.
  - rewrite RemoveProject_eq. cbn [snd projectIds].
    by rewrite lookup_delete_ne.
  - by rewrite SetQuota_projectIds.
  - destruct (restoreQuotas_projectIds env q t) as [->|[_ Hst]]; [done|].
    by destruct Hrel.
Qed.

(** So does a sequence of operations none of which releases [t]. *)
Lemma exec_keeps_tag env t ops : forall q,
  projectIds q !! t = Some true ->
  never_released env t ops q ->
  projectIds (exec env ops q) !! t = Some true.
Proof.
  induction ops as [|o ops IH]; intros q Ht Hnr; [done|].
  destruct Hnr as [Hrel Hnr]. cbn [exec fold_left].
  apply IH; [|done]. by apply step_keeps_tag.
Qed.

(** The scan only adds tags, and it adds the tag of every match. *)
Lemma scan_keeps (ms : list (list bytes)) : forall (ids : gmap N bool) id,
  ids !! id = Some true ->
  fold_left (fun ids m => <[match_id m := true]> ids) ms ids !! id
  = Some true.
Proof.
  induction ms as [|m ms IH]; intros ids id H; [done|].
  cbn [fold_left]. apply IH.
  destruct (decide (match_id m = id)) as [->|Hne].
  - apply lookup_insert_eq.
  - by rewrite lookup_insert_ne.
Qed.

Lemma scan_registers (ms : list (list bytes)) : forall (ids : gmap N bool) m,
  m ∈ ms ->
  fold_left (fun ids m => <[match_id m := true]> ids) ms ids !! match_id m
  = Some true.
Proof.
  induction ms as [|m0 ms IH]; intros ids m Hin.
  - by apply elem_of_nil in Hin.
  - cbn [fold_left]. apply elem_of_cons in Hin as [->|Hin].
    + apply scan_keeps. apply lookup_insert_eq.
    + by apply IH.
Qed.

(** A projects file made of the blocks of such records is read back as
    those records, in order. *)
Lemma loadRecords_blocks rs :
  Forall writable rs ->
  loadRecords (concat (map block_of_record rs)) = rs.
Proof.
  intros Hrs. unfold loadRecords.
  pose proof (FindAllSubmatch_blocks
                (map (fun '(i, d, b) => (FormatUint i, d, b)) rs)) as H.
  rewrite map_map in H.
  replace (map (fun x => text_of (let '(i, d, b) := x in (FormatUint i, d, b)))
             rs) with (map block_of_record rs) in H
    by (apply map_ext; by intros [[i d] b]).
  rewrite H.
  - rewrite !map_map. rewrite <- (map_id rs) at 2. apply map_ext_Forall.
    eapply Forall_impl; [exact Hrs|]. intros [[i d] b] (Hi & _).
    unfold record_of, match_id. cbn [match_of nth].
    rewrite strconv_facts.ParseUint_FormatUint by done. cbn [fst].
    do 2 f_equal. unfold uint16, MaxUint16 in *. apply N.mod_small. lia.
  - apply Forall_map. eapply Forall_impl; [exact Hrs|].
    intros [[i d] b] (Hi & Hd & Hdnl & Hb & Hbd). unfold well_formed.
    repeat split; auto using strconv_facts.FormatUint_not_nil,
      strconv_facts.FormatUint_digits, digit_string_no_newline,
      digit_string_no_colon.
Qed.

(** ** The projects file after [restoreQuotas] *)

(** The file a run of the loop leaves is the file it found, less the
    texts its successful removals took out. *)
Lemma restore_loop_file env ms : forall q,
  exists cs,
    calls (snd (restore_loop env ms q)) = calls q ++ cs /\
    file (snd (restore_loop env ms q)) = file_after cs (file q).
Proof.
  induction ms as [|m ms IH]; intros q.
  - exists []. by rewrite app_nil_r.
  - destruct (stale env m) eqn:Hst.
    + rewrite restore_loop_stale by done. cbv zeta.
      rewrite RemoveProject_eq. cbn [fst snd].
      match goal with
      | |- context [restore_loop env ms ?q1] =>
          destruct (IH q1) as (cs & Hc & Hf)
      end.
      cbn [calls file add_call] in Hc, Hf.
      eexists (_ :: cs). rewrite Hc, Hf, <- app_assoc.
      split; [reflexivity|]. cbn [file_after fold_left].
      by destruct (removeOk env (log q) (nth 0 m [])).
    + rewrite restore_loop_present by done. cbv zeta.
      pose proof (SetQuota_calls env (match_id m) (nth 2 m []) (nth 3 m []) q)
        as Hc0.
      assert (Hf0 : file (snd (SetQuota env (match_id m) (nth 2 m [])
                                 (nth 3 m []) q)) = file q).
      { rewrite SetQuota_eq.
        by destruct (map_index (projectIds q) (match_id m)). }
      destruct (SetQuota env (match_id m) (nth 2 m []) (nth 3 m []) q)
        as [[e0|] q2]; cbn [fst snd] in *.
      * eexists [_]. cbn [calls file add_call]. rewrite Hc0, Hf0.
        split; reflexivity.
      * match goal with
        | |- context [restore_loop env ms ?q1] =>
            destruct (IH q1) as (cs & Hc & Hf)
        end.
        cbn [calls file add_call] in Hc, Hf. rewrite Hc0 in Hc.
        rewrite Hf0 in Hf.
        eexists (_ :: cs). rewrite Hc, Hf, <- app_assoc.
        split; reflexivity.
Qed.

(** Deleting the text of a block from a file of blocks takes out the
    blocks with that text and nothing else. *)
Lemma drop_all_in_line o x : forall r,
  no_newline x ->
  drop_all (nl :: o) (x ++ r) 0 = x ++ drop_all (nl :: o) r 0.
Proof.
  induction x as [|c x IH]; intros r Hx; [done|].
  apply Forall_cons in Hx as [Hc Hx]. cbn [app drop_all].
  rewrite store_facts.HasPrefix_cons_ne by done. f_equal. by apply IH.
Qed.

Lemma drop_all_block x y r :
  no_newline x -> y <> [] -> no_newline y -> starts_nl r ->
  drop_all (framed y) (framed x ++ r) 0
  = (if decide (x = y) then [] else framed x) ++ drop_all (framed y) r 0.
Proof.
  intros Hx Hyne Hy Hr. destruct (decide (x = y)) as [->|Hne].
  - unfold framed. cbn [app drop_all].
    rewrite store_facts.HasPrefix_cons_eq, strings_facts.HasPrefix_app. cbn [length].
    rewrite Nat.sub_succ, Nat.sub_0_r. apply strings_facts.drop_all_skip.
  - unfold framed. cbn [app drop_all].
    rewrite store_facts.HasPrefix_cons_eq, <- app_assoc. cbn [app].
    destruct (HasPrefix (x ++ nl :: r) (y ++ [nl])) eqn:Hp.
    { by apply store_facts.HasPrefix_line in Hp. }
    f_equal. rewrite drop_all_in_line by done. rewrite <- app_assoc.
    f_equal. cbn [app drop_all]. rewrite store_facts.HasPrefix_cons_eq.
    assert (HasPrefix r (y ++ [nl]) = false) as ->; [|done].
    destruct y as [|d y]; [done|]. apply Forall_cons in Hy as [Hd _].
    destruct r as [|c r]; [done|]. simpl in Hr. subst c. cbn [app].
    by rewrite store_facts.HasPrefix_cons_ne by congruence.
Qed.

Lemma well_formed_line ds directory bhard :
  well_formed (ds, directory, bhard) ->
  line_of ds directory bhard <> [] /\ no_newline (line_of ds directory bhard).
Proof.
  intros (Hne & Hds & _ & Hd & _ & Hb & _). split.
  - unfold line_of. by destruct ds.
  - by apply store_facts.line_of_no_newline.
Qed.

Lemma blocks_start_nl us : starts_nl (concat (map text_of us)).
Proof. destruct us as [|[[ds directory] bhard] us]; done. Qed.

Lemma framed_inj x y : framed x = framed y -> x = y.
Proof.
  unfold framed. intros [= H]. by apply app_inv_tail in H.
Qed.

Lemma RemoveAll_blocks us y :
  Forall well_formed us -> y <> [] -> no_newline y ->
  RemoveAll (concat (map text_of us)) (framed y)
  = concat (map text_of (filter (fun u => text_of u <> framed y) us)).
Proof.
  intros Hus Hyne Hy.
  change (drop_all (framed y) (concat (map text_of us)) 0
          = concat (map text_of (filter (fun u => text_of u <> framed y) us))).
  induction Hus as [|[[ds directory] bhard] us Hu Hus IH]; [done|].
  destruct (well_formed_line _ _ _ Hu) as [_ Hx].
  cbn [map concat text_of]. rewrite store_facts.block_text_framed.
  rewrite drop_all_block by auto using blocks_start_nl. rewrite IH.
  rewrite filter_cons. cbn [text_of].
  rewrite store_facts.block_text_framed.
  destruct (decide (line_of ds directory bhard = y)) as [->|Hne].
  - by destruct (decide (framed y <> framed y)).
  - destruct (decide (framed (line_of ds directory bhard) <> framed y))
      as [_|Heq].
    + cbn [map concat text_of]. by rewrite store_facts.block_text_framed.
    + exfalso. apply Heq. intros H. by apply framed_inj in H.
Qed.

Lemma filter_all {X} (P : X -> Prop) `{forall x, Decision (P x)}
    (l : list X) :
  (forall x, P x) -> filter P l = l.
Proof.
  intros HP. induction l as [|x l IH]; [done|].
  rewrite filter_cons_True by done. by rewrite IH.
Qed.

Lemma filter_ext_in {X} (P Q : X -> Prop) `{forall x, Decision (P x)}
    `{forall x, Decision (Q x)} (l : list X) :
  (forall x, x ∈ l -> P x <-> Q x) -> filter P l = filter Q l.
Proof.
  induction l as [|x l IH]; intros HPQ; [done|].
  rewrite !filter_cons.
  rewrite IH by (intros y Hy; apply HPQ, elem_of_cons; by right).
  assert (Hx : P x <-> Q x) by (apply HPQ, elem_of_cons; by left).
  destruct (decide (P x)), (decide (Q x)); tauto.
Qed.

Lemma Forall_filter_keeps {X} (P Q : X -> Prop) `{forall x, Decision (Q x)}
    (l : list X) :
  Forall P l -> Forall P (filter Q l).
Proof.
  induction 1 as [|x l Hx Hl IH]; [constructor|].
  rewrite filter_cons. destruct (decide (Q x)); [by constructor|done].
Qed.

(** On a file of blocks, the removals that succeeded took out the blocks
    of the stale records and nothing else. *)
Lemma file_after_blocks env ms cs :
  Forall2 (handled env) ms cs ->
  Forall is_record ms ->
  (forall block id e, CallRemoveProject block id (Some e) ∉ cs) ->
  forall us,
    Forall well_formed us ->
    file_after cs (concat (map text_of us))
    = concat (map text_of
                (filter (fun u => text_of u ∉ stale_texts env ms) us)).
Proof.
  induction 1 as [|m c ms cs Hmc Hh IH]; intros Hms Hok us Hus.
  - cbn [file_after fold_left]. rewrite filter_all; [done|].
    intros u Hu. by apply elem_of_nil in Hu.
  - apply Forall_cons in Hms as [Hm Hms].
    assert (Hok' : forall block id e,
              CallRemoveProject block id (Some e) ∉ cs).
    { intros block id e Hin. apply (Hok block id e).
      apply elem_of_cons. by right. }
    unfold handled in Hmc. unfold stale_texts.
    destruct (stale env m) eqn:Hst.
    + destruct Hmc as [[e|] ->].
      { exfalso. eapply Hok. apply elem_of_cons. by left. }
      destruct Hm as (ds & directory & bhard & -> & Hne & Hds & _ & Hd
                      & _ & Hb).
      cbn [nth] in *. cbn [file_after fold_left].
      rewrite store_facts.block_text_framed.
      rewrite RemoveAll_blocks; try done; cycle 1.
      { unfold line_of. by destruct ds. }
      { by apply store_facts.line_of_no_newline. }
      change (fold_left _ cs ?f) with (file_after cs f).
      rewrite IH by (try done; by apply Forall_filter_keeps).
      rewrite list_filter_filter. f_equal. f_equal.
      apply list_filter_iff. intros u.
      rewrite filter_cons_True by done. cbn [map nth].
      rewrite not_elem_of_cons. unfold stale_texts. tauto.
    + destruct Hmc as [e ->]. cbn [file_after fold_left].
      change (fold_left _ cs ?f) with (file_after cs f).
      rewrite IH by done. rewrite filter_cons_False by congruence.
      done.
Qed.

Lemma text_of_inj t t' :
  well_formed t -> well_formed t' -> text_of t = text_of t' ->
  match_of t = match_of t'.
Proof.
  destruct t as [[ds directory] bhard], t' as [[ds' directory'] bhard'].
  intros (?&?&?&?&?&?&?) (?&?&?&?&?&?&?) Heq. cbn [text_of match_of] in *.
  assert (Hm : match_here restore_re None (block_text ds directory bhard ++ [])
               = Some [block_text ds directory bhard; ds; directory; bhard])
    by by apply match_here_block.
  assert (Hm' : match_here restore_re None
                  (block_text ds' directory' bhard' ++ [])
                = Some [block_text ds' directory' bhard'; ds'; directory';
                        bhard'])
    by by apply match_here_block.
  rewrite Heq in Hm. rewrite Hm in Hm'. rewrite Heq. congruence.
Qed.

Lemma elem_of_map_inv {X Y} (f : X -> Y) (l : list X) y :
  y ∈ map f l -> exists x, y = f x /\ x ∈ l.
Proof.
  intros H. apply list_elem_of_In, in_map_iff in H as (x & <- & Hx).
  exists x. split; [done|]. by apply list_elem_of_In.
Qed.

Lemma elem_of_map_intro {X Y} (f : X -> Y) (l : list X) x :
  x ∈ l -> f x ∈ map f l.
Proof. intros H. apply list_elem_of_In, in_map. by apply list_elem_of_In. Qed.

Lemma well_formed_record t : well_formed t -> is_record (match_of t).
Proof.
  destruct t as [[ds directory] bhard]. intros (?&?&?&?&?&?&?).
  exists ds, directory, bhard. by repeat split.
Qed.

(** When [restoreQuotas] has handled every record of a file of blocks
    and every removal succeeded, the file holds the blocks of the records
    whose directory is not missing, in order. *)
Lemma file_after_restore env ts cs :
  Forall well_formed ts ->
  Forall2 (handled env) (map match_of ts) cs ->
  (forall block id e, CallRemoveProject block id (Some e) ∉ cs) ->
  file_after cs (concat (map text_of ts))
  = concat (map text_of
              (filter (fun t => stale env (match_of t) = false) ts)).
Proof.
  intros Hts Hh Hok.
  rewrite (file_after_blocks env (map match_of ts) cs); try done; cycle 1.
  { clear -Hts. induction Hts as [|t ts Ht _ IH]; [constructor|].
    cbn [map]. constructor; [by apply well_formed_record|done]. }
  f_equal. f_equal. apply filter_ext_in. intros t Ht.
  assert (Htext : forall u, text_of u = nth 0 (match_of u) []).
  { by intros [[ds directory] bhard]. }
  split.
  - intros Hnot. destruct (stale env (match_of t)) eqn:Hst; [|done].
    exfalso. apply Hnot. unfold stale_texts. rewrite Htext.
    apply (elem_of_map_intro (fun m => nth 0 m [])).
    apply list_elem_of_filter. split; [done|].
    by apply elem_of_map_intro.
  - intros Hst Hin. unfold stale_texts in Hin.
    apply elem_of_map_inv in Hin as (m & Hm & Hin).
    apply list_elem_of_filter in Hin as [Hstm Hin].
    apply elem_of_map_inv in Hin as (t' & -> & Ht').
    rewrite <- Htext in Hm.
    rewrite Forall_forall in Hts.
    apply text_of_inj in Hm; [|by apply Hts..]. congruence.
Qed.

(** * The claims *)

(** C1, as the code has it. When [AddProject] fails the project id map
    is what it was before the call. If the append failed, so is the file.
    If [xfs_quota] failed, the removal of the block is attempted and its
    own error is dropped: the file is what it was before the call when
    that removal succeeds and the appended copy is the first occurrence
    of the block text, and it keeps the block when the removal fails. *)
Theorem AddProject_failure_rollback env directory bhard q block id e q' :
  AddProject env directory bhard q = (Some (block, id, Some e), q') ->
  projectIds q' = projectIds q /\ block = [] /\ id = 0 /\
  exists tag,
    free_id (projectIds q) = Some tag /\
    let blk := block_of tag directory bhard in
    let command := project_command directory (FormatUint tag) in
    (appendOk env (log q) blk = false /\
     file q' = file q /\ log q' = log q ++ [EvAppend blk])
    \/
    (appendOk env (log q) blk = true /\
     execOk env (log q ++ [EvAppend blk]) command = false /\
     log q' = log q ++ [EvAppend blk; EvExec command; EvRemove blk] /\
     (removeOk env (log q ++ [EvAppend blk; EvExec command]) blk = true ->
        file q' = RemoveAll (file q ++ blk) blk /\
        (Index (file q ++ blk) blk = Some (length (file q)) ->
           file q' = file q)) /\
     (removeOk env (log q ++ [EvAppend blk; EvExec command]) blk = false ->
        file q' = file q ++ blk)).
Proof.
  intros H.
  destruct (AddProject_allocates _ _ _ _ _ _ H) as [tag Htag].
  pose proof (free_id_spec _ _ Htag) as (Hfree & _ & Hmax).
  set (blk := block_of tag directory bhard).
  set (command := project_command directory (FormatUint tag)).
  destruct (appendOk env (log q) blk) eqn:Happ.
  - destruct (execOk env (log q ++ [EvAppend blk]) command) eqn:Hexec.
    + rewrite (AddProject_succeeds env directory bhard q tag) in H by done.
      discriminate.
    + rewrite (AddProject_associate_fails env directory bhard q tag) in H
        by done.
      injection H as <- <- <- <-. simpl.
      split; [by apply release_allocated|]. do 2 (split; [done|]).
      exists tag. split; [done|]. right. fold blk command.
      rewrite <- !app_assoc. simpl.
      do 3 (split; [done|]).
      destruct (removeOk env _ blk); split; try done.
      intros _. split; [done|]. intros Hidx.
      apply strings_facts.RemoveAll_appended; [|done].
      unfold blk, block_of, block_text. done.
  - rewrite (AddProject_append_fails env directory bhard q tag) in H by done.
    injection H as <- <- <- <-. simpl.
    split; [by apply release_allocated|]. do 2 (split; [done|]).
    exists tag. split; [done|]. by left.
Qed.

(** C1 at a concrete failure: [xfs_quota] fails on an empty projects file
    and the block is removed again. *)
Lemma AddProject_failure_rollback_witness :
  let q := fresh ∅ (B "") in
  let r := AddProject env_ok_exec_fail (B "/export/pvc-1") (B "5") q in
  fst r = Some ([], 0, Some (ErrXfsQuota (B "project -s -p /export/pvc-1 1")))
  /\ projectIds (snd r) = projectIds q /\ file (snd r) = file q.
Proof.
  intros q r.
  destruct (AddProject_failure_rollback env_ok_exec_fail
              (B "/export/pvc-1") (B "5") q [] 0
              (ErrXfsQuota (B "project -s -p /export/pvc-1 1")) (snd r))
    as (Hids & _ & _ & tag & Htag & Hcases).
  { vm_compute. reflexivity. }
  split; [vm_compute; reflexivity|]. split; [exact Hids|].
  assert (tag = 1) as -> by (vm_compute in Htag; congruence).
  destruct Hcases as [(Happ & _)|(_ & _ & _ & Hrm & _)].
  - vm_compute in Happ. discriminate.
  - apply Hrm; vm_compute; reflexivity.
Defined.

(** The other failure: the append fails, on a file that holds a record. *)
Example AddProject_append_fails_example :
  let q := fresh {[ 1 := true ]} vol1_tag1_block in
  AddProject env_append_fail (B "/data/vol2") (B "1Gi") q
  = (Some ([], 0,
           Some (ErrAddBlock (nl :: B "2:/data/vol2:1Gi" ++ [nl])
                   (ErrFile (EvAppend (nl :: B "2:/data/vol2:1Gi" ++ [nl]))))),
     add_event (EvAppend (nl :: B "2:/data/vol2:1Gi" ++ [nl])) q).
Proof.
  intros q.
  rewrite (AddProject_append_fails env_append_fail _ _ q 2);
    [|reflexivity|reflexivity].
  by rewrite release_allocated.
Qed.

(** C1 fails as stated: [xfs_quota] fails, the removal of the block fails
    too, [AddProject] returns the [xfs_quota] error and the projects file
    keeps the block. *)
Lemma AddProject_failure_keeps_block :
  let q := fresh ∅ (B "") in
  let r := AddProject env_exec_remove_fail (B "/export/pvc-1") (B "5") q in
  fst r = Some ([], 0, Some (ErrXfsQuota (B "project -s -p /export/pvc-1 1")))
  /\ file q = []
  /\ file (snd r) = nl :: B "1:/export/pvc-1:5" ++ [nl]
  /\ file (snd r) <> file q.
Proof. vm_compute. repeat split; discriminate. Qed.

(** C2, as the code has it. The token a successful [AddProject] returns
    is the block it appended; when [RemoveProject] with that token
    succeeds and the appended copy is the first occurrence of the block
    text, the projects file and the project id map are what they were
    before [AddProject]. *)
Theorem AddProject_RemoveProject_restores_file
    env directory bhard q block id q1 q2 :
  AddProject env directory bhard q = (Some (block, id, None), q1) ->
  RemoveProject env block id q1 = (None, q2) ->
  Index (file q ++ block) block = Some (length (file q)) ->
  block = block_of id directory bhard /\
  file q1 = file q ++ block /\
  file q2 = file q /\
  projectIds q2 = projectIds q.
Proof.
  intros Hadd Hrm Hidx.
  destruct (AddProject_allocates _ _ _ _ _ _ Hadd) as [tag Htag].
  set (blk := block_of tag directory bhard) in *.
  set (command := project_command directory (FormatUint tag)) in *.
  destruct (appendOk env (log q) blk) eqn:Happ.
  - destruct (execOk env (log q ++ [EvAppend blk]) command) eqn:Hexec.
    + rewrite (AddProject_succeeds env directory bhard q tag) in Hadd by done.
      injection Hadd as <- <- <-. fold blk in Hidx, Hrm |- *.
      rewrite RemoveProject_eq in Hrm. simpl in Hrm.
      destruct (removeOk env _ blk); [|discriminate].
      injection Hrm as <-. simpl.
      split; [done|]. split; [done|]. split.
      * apply strings_facts.RemoveAll_appended; [|done].
        unfold blk, block_of, block_text. done.
      * by apply release_allocated.
    + rewrite (AddProject_associate_fails env directory bhard q tag) in Hadd
        by done.
      discriminate.
  - rewrite (AddProject_append_fails env directory bhard q tag) in Hadd
      by done.
    discriminate.
Qed.

(** C2 at a concrete input: a project added to a file holding one record
    and removed again. *)
Lemma AddProject_RemoveProject_restores_file_witness :
  let q := fresh {[ 1 := true ]} (nl :: B "1:/export/pvc-1:5" ++ [nl]) in
  let r := AddProject env_ok (B "/export/pvc-2") (B "7") q in
  let block := nl :: B "2:/export/pvc-2:7" ++ [nl] in
  fst r = Some (block, 2, None) /\
  file (snd (RemoveProject env_ok block 2 (snd r))) = file q.
Proof.
  intros q r block. split; [vm_compute; reflexivity|].
  apply (AddProject_RemoveProject_restores_file env_ok
           (B "/export/pvc-2") (B "7") q block 2 (snd r)
           (snd (RemoveProject env_ok block 2 (snd r)))).
  - vm_compute. reflexivity.
  - vm_compute. reflexivity.
  - vm_compute. reflexivity.
Defined.

(** C2 fails as stated: every step succeeds, yet the projects file ends
    up different. The file held the line of a record without its final
    newline, which neither pattern of construction matches; the appended
    block completes that line into the same text, and the removal
    deletes the completed text instead of the appended one. *)
Lemma AddProject_RemoveProject_changes_file :
  match newXfsQuotaer env_ok host_unfinished with
  | (None, Some q) =>
      let r := AddProject env_ok (B "d") (B "1") q in
      let block := nl :: B "1:d:1" ++ [nl] in
      let r' := RemoveProject env_ok block 1 (snd r) in
      file q = nl :: B "1:d:1" /\
      fst r = Some (block, 1, None) /\
      file (snd r) = nl :: B "1:d:1" ++ nl :: B "1:d:1" ++ [nl] /\
      fst r' = None /\
      file (snd r') = B "1:d:1" ++ [nl] /\
      file (snd r') <> file q
  | _ => False
  end.
Proof. vm_compute. repeat split; discriminate. Qed.

(** C3, as the code has it. For every record that a run of
    [restoreQuotas] handles and whose directory is reported missing, the
    one call made is [RemoveProject] with the text and the tag of the
    record, never [SetQuota]: the tag is out of the project id map when
    [restoreQuotas] returns, the removal of the text from the projects
    file has been attempted, and the loop goes on, either to the next
    record or to a normal end. An error of [restoreQuotas] comes from
    reading the file or from a [SetQuota] for a record whose directory is
    not missing. The file [restoreQuotas] leaves is the file it found
    with the text of each removal that succeeded taken out, in the order
    of the calls; a removal that failed leaves the text in the file. On
    a file made of blocks, when [restoreQuotas] succeeds and no removal
    failed, what is left is the blocks of the records whose directory is
    not missing, in order. *)
Theorem restoreQuotas_removes_stale_records env q err q' :
  restoreQuotas env q = (err, q') ->
  exists processed rest newcalls,
    FindAllSubmatch restore_re (file q) = processed ++ rest /\
    Forall is_record processed /\
    calls q' = calls q ++ newcalls /\
    Forall2 (handled env) processed newcalls /\
    (forall i m, processed !! i = Some m -> stale env m = true ->
       (exists e, newcalls !! i
                  = Some (CallRemoveProject (nth 0 m []) (match_id m) e)) /\
       projectIds q' !! match_id m = None /\
       EvRemove (nth 0 m []) ∈ log q' /\
       (S i < length processed \/ rest = [])%nat) /\
    (forall e, err = Some e ->
       e = ErrFile EvReadFile \/
       exists m e0, last processed = Some m /\ stale env m = false /\
                    e = ErrRestoreQuota (nth 2 m []) e0) /\
    file q' = file_after newcalls (file q) /\
    (forall ts,
       file q = concat (map text_of ts) -> Forall well_formed ts ->
       err = None ->
       (forall block id e, CallRemoveProject block id (Some e) ∉ newcalls) ->
       file q'
       = concat (map text_of
                   (filter (fun t => stale env (match_of t) = false) ts))).
Proof.
  intros H. destruct (readOk env (log q)) eqn:Hread; cycle 1.
  { rewrite restoreQuotas_unread in H by done. injection H as <- <-.
    exists [], (FindAllSubmatch restore_re (file q)), [].
    cbn [calls add_event]. rewrite app_nil_r.
    split; [done|]. split; [constructor|]. split; [done|].
    split; [constructor|].
    split; [by intros i m Hi|].
    split; [intros e0 [= <-]; by left|]. by split. }
  rewrite restoreQuotas_read in H by done.
  destruct (restore_loop_file env (FindAllSubmatch restore_re (file q))
              (add_event EvReadFile q)) as (cs & Hcs & Hfile).
  cbn [file add_event] in Hcs, Hfile. rewrite H in Hcs, Hfile.
  cbn [snd calls add_event] in Hcs, Hfile.
  apply restore_loop_trace in H
    as (processed & rest & newcalls & Hms & Hc & Hh & Hids & _ & Hrm & Herr).
  exists processed, rest, newcalls.
  cbn [file calls projectIds add_event] in Hms, Hc, Hids.
  assert (cs = newcalls) as ->
    by (rewrite Hc in Hcs; by apply app_inv_head in Hcs).
  split; [done|]. split; [by eapply prefix_records|].
  split; [done|]. split; [done|].
  assert (Hblocks : forall ts,
            file q = concat (map text_of ts) -> Forall well_formed ts ->
            err = None ->
            (forall block id e,
               CallRemoveProject block id (Some e) ∉ newcalls) ->
            file q'
            = concat (map text_of
                        (filter (fun t => stale env (match_of t) = false)
                           ts))).
  { intros ts Hf Hts -> Hok. destruct Herr as [-> _].
    rewrite app_nil_r in Hms. rewrite Hf in Hms.
    rewrite FindAllSubmatch_blocks in Hms by done. subst processed.
    rewrite Hfile, Hf. by apply file_after_restore. }
  split; [|split; [|by split]].
  - intros i m Hi Hst.
    destruct (Forall2_lookup_l _ _ _ _ _ Hh Hi) as (c & Hci & Hhc).
    unfold handled in Hhc. rewrite Hst in Hhc. destruct Hhc as [e ->].
    split; [by exists e|]. split.
    { rewrite Hids. apply released_stale; [|done].
      by eapply list_elem_of_lookup_2. }
    split.
    { eapply Forall_lookup_1 in Hrm; [|exact Hi]. by apply Hrm. }
    destruct err as [e'|].
    + destruct Herr as (pre & m0 & e0 & cs & -> & Hst0 & _).
      left. rewrite length_app. simpl.
      destruct (decide (i < length pre)%nat) as [Hlt|Hge]; [lia|].
      rewrite lookup_app_r in Hi by lia.
      destruct (i - length pre)%nat eqn:Hk; [|done].
      injection Hi as <-. congruence.
    + right. by destruct Herr.
  - intros e ->. right.
    destruct Herr as (pre & m0 & e0 & cs & -> & Hst0 & -> & _).
    exists m0, e0. by rewrite last_snoc.
Qed.

(** C3 on the spec's scenario: the directory of tag 7 is missing. *)
Lemma restoreQuotas_removes_stale_records_witness :
  let q := fresh {[ 7 := true ]} vol1_block in
  let r := restoreQuotas env_gone q in
  fst r = None /\
  calls (snd r) = [CallRemoveProject vol1_block 7 None] /\
  file (snd r) = [] /\
  exists processed rest newcalls,
    FindAllSubmatch restore_re (file q) = processed ++ rest /\
    calls (snd r) = calls q ++ newcalls /\
    Forall2 (handled env_gone) processed newcalls.
Proof.
  intros q r.
  destruct (restoreQuotas_removes_stale_records env_gone q (fst r) (snd r))
    as (processed & rest & newcalls & H1 & _ & H2 & H3 & _ & _ & _ & Hb).
  - apply surjective_pairing.
  - do 2 (split; [vm_compute; reflexivity|]). split.
    + rewrite (Hb [(B "7", B "/data/vol1", B "5Gi")]).
      * reflexivity.
      * reflexivity.
      * repeat constructor; discriminate.
      * reflexivity.
      * intros block id e Hin.
        assert (Hcalls : [CallRemoveProject vol1_block 7 None] = newcalls)
          by exact H2.
        rewrite <- Hcalls in Hin.
        apply elem_of_cons in Hin as [Hin|Hin]; [discriminate|].
        by apply elem_of_nil in Hin.
    + by exists processed, rest, newcalls.
Defined.

(** C3 fails as stated: the directory of the record is missing and the
    projects file cannot be rewritten. [RemoveProject] returns the error,
    [restoreQuotas] drops it and succeeds, and the record is still in the
    file while its tag is out of the project id map. *)
Lemma restoreQuotas_keeps_stale_block :
  let q := fresh {[ 7 := true ]} vol1_block in
  let r := restoreQuotas env_gone_remove_fail q in
  loadRecords (file q) = [(7, B "/data/vol1", B "5Gi")] /\
  stat env_gone_remove_fail (B "/data/vol1") = StatNotExist /\
  fst r = None /\
  file (snd r) = vol1_block /\
  loadRecords (file (snd r)) = [(7, B "/data/vol1", B "5Gi")] /\
  projectIds (snd r) !! 7 = None.
Proof. vm_compute. repeat split. Qed.



(** The first of two limits fails: the second record is not handled. *)
Example restoreQuotas_aborts_example :
  let q := fresh {[ 7 := true; 8 := true ]}
             (vol1_block ++ nl :: B "8:/data/vol2:1Gi" ++ [nl]) in
  let r := restoreQuotas env_ok_exec_fail q in
  fst r = Some (ErrRestoreQuota (B "/data/vol1")
                  (ErrXfsQuota (B "limit -p bhard=5Gi 7"))) /\
  calls (snd r)
  = [CallSetQuota 7 (B "/data/vol1") (B "5Gi")
       (Some (ErrXfsQuota (B "limit -p bhard=5Gi 7")))] /\
  log (snd r) = [EvReadFile; EvExec (B "limit -p bhard=5Gi 7")].
Proof. vm_compute. repeat split. Qed.

(** C5, as the code has it. Over every sequence of operations, a tag
    that [AddProject] has handed out is not handed out again before an
    operation releases it: [RemoveProject] for that tag, or a restore
    that finds a record with that tag stale. Whether the record is still
    in the projects file plays no part. *)
Theorem tag_not_reused_until_released env directory bhard q block t q1 ops :
  AddProject env directory bhard q = (Some (block, t, None), q1) ->
  never_released env t ops q1 ->
  projectIds q !! t = None /\
  projectIds (exec env ops q1) !! t = Some true /\
  free_id (projectIds (exec env ops q1)) <> Some t /\
  forall directory' bhard' block' t' q2,
    AddProject env directory' bhard' (exec env ops q1)
    = (Some (block', t', None), q2) ->
    t' <> t.
Proof.
  intros Hadd Hnr.
  assert (Hq : projectIds q !! t = None /\ projectIds q1 !! t = Some true).
  { destruct (AddProject_allocates _ _ _ _ _ _ Hadd) as [tag Htag].
    pose proof (free_id_spec _ _ Htag) as (Hfree & _).
    set (blk := block_of tag directory bhard) in *.
    set (command := project_command directory (FormatUint tag)) in *.
    destruct (appendOk env (log q) blk) eqn:Happ;
      [destruct (execOk env (log q ++ [EvAppend blk]) command) eqn:Hexec|].
    - rewrite (AddProject_succeeds env directory bhard q tag) in Hadd by done.
      injection Hadd as <- <- <-. split; [done|]. apply lookup_insert_eq.
    - rewrite (AddProject_associate_fails env directory bhard q tag) in Hadd
        by done.
      discriminate.
    - rewrite (AddProject_append_fails env directory bhard q tag) in Hadd
        by done.
      discriminate. }
  destruct Hq as [Hfree Hin]. split; [done|].
  pose proof (exec_keeps_tag env t ops q1 Hin Hnr) as Hkept.
  split; [done|].
  set (q' := exec env ops q1) in *.
  assert (Hnot : free_id (projectIds q') <> Some t).
  { intros Hf. apply free_id_spec in Hf as (Hf & _). congruence. }
  split; [done|].
  intros directory' bhard' block' t' q2 Hadd'.
  destruct (AddProject_allocates _ _ _ _ _ _ Hadd') as [tag Htag].
  set (blk := block_of tag directory' bhard') in *.
  set (command := project_command directory' (FormatUint tag)) in *.
  destruct (appendOk env (log q') blk) eqn:Happ;
    [destruct (execOk env (log q' ++ [EvAppend blk]) command) eqn:Hexec|].
  - rewrite (AddProject_succeeds env directory' bhard' q' tag) in Hadd'
      by done.
    injection Hadd' as <- <- <-. congruence.
  - rewrite (AddProject_associate_fails env directory' bhard' q' tag) in Hadd'
      by done.
    discriminate.
  - rewrite (AddProject_append_fails env directory' bhard' q' tag) in Hadd'
      by done.
    discriminate.
Qed.

(** C5 on a sequence in which tag 1 is never released. *)
Lemma tag_not_reused_until_released_witness :
  let q := fresh ∅ (B "") in
  let r1 := AddProject env_ok (B "/data/vol1") (B "5Gi") q in
  let ops := [OpSetQuota 1 (B "/data/vol1") (B "5Gi");
              OpAddProject (B "/data/vol2") (B "1Gi");
              OpRemoveProject (nl :: B "2:/data/vol2:1Gi" ++ [nl]) 2] in
  let r2 := AddProject env_ok (B "/data/vol3") (B "2Gi")
              (exec env_ok ops (snd r1)) in
  fst r1 = Some (vol1_tag1_block, 1, None) /\
  fst r2 = Some (nl :: B "2:/data/vol3:2Gi" ++ [nl], 2, None) /\
  projectIds (exec env_ok ops (snd r1)) !! 1 = Some true.
Proof.
  intros q r1 ops r2.
  split; [vm_compute; reflexivity|]. split; [vm_compute; reflexivity|].
  apply (tag_not_reused_until_released env_ok (B "/data/vol1") (B "5Gi") q
           vol1_tag1_block 1 (snd r1) ops).
  - vm_compute. reflexivity.
  - cbn [never_released releases ops]. repeat split; auto; discriminate.
Defined.

(** C5 fails as stated: [RemoveProject] for tag 1 cannot rewrite the
    projects file and returns the error with the tag released; the next
    [AddProject] hands out tag 1 while the record with tag 1 is still in
    the file. *)
Lemma tag_reused_while_record_in_file :
  let q := fresh ∅ (B "") in
  let r1 := AddProject env_remove_fail (B "/data/vol1") (B "5Gi") q in
  let r2 := RemoveProject env_remove_fail vol1_tag1_block 1 (snd r1) in
  let r3 := AddProject env_remove_fail (B "/data/vol2") (B "1Gi") (snd r2) in
  fst r1 = Some (vol1_tag1_block, 1, None) /\
  fst r2 = Some (ErrFile (EvRemove vol1_tag1_block)) /\
  loadRecords (file (snd r2)) = [(1, B "/data/vol1", B "5Gi")] /\
  fst r3 = Some (nl :: B "1:/data/vol2:1Gi" ++ [nl], 1, None).
Proof. vm_compute. repeat split. Qed.

(** C6. [SetQuota] on a tag that is not in the project id map returns the
    "has not been added" error and does nothing else: the state, and with
    it the log of [xfs_quota] invocations, is unchanged. On a tag that is
    in the map it runs [xfs_quota] with the limit command, and fails
    exactly when that run fails. *)
Theorem SetQuota_checks_allocation env projectId directory bhard q :
  (map_index (projectIds q) projectId = false ->
     SetQuota env projectId directory bhard q
     = (Some (ErrNotAdded projectId), q))
  /\
  (map_index (projectIds q) projectId = true ->
     let command := limit_command bhard (FormatUint projectId) in
     SetQuota env projectId directory bhard q
     = (if execOk env (log q) command then None
        else Some (ErrXfsQuota command),
        add_event (EvExec command) q)).
Proof.
  rewrite SetQuota_eq. split; intros ->; reflexivity.
Qed.

(** C6 at concrete inputs: tag 3 is not allocated, tag 1 is. *)
Lemma SetQuota_checks_allocation_witness :
  let q := fresh {[ 1 := true ]} (nl :: B "1:/export/pvc-1:5" ++ [nl]) in
  SetQuota env_ok 3 (B "/export/pvc-3") (B "5") q = (Some (ErrNotAdded 3), q)
  /\ log (snd (SetQuota env_ok 1 (B "/export/pvc-1") (B "5") q))
     = [EvExec (B "limit -p bhard=5 1")].
Proof.
  intros q. split.
  - apply (SetQuota_checks_allocation env_ok 3 (B "/export/pvc-3") (B "5") q).
    vm_compute. reflexivity.
  - destruct (SetQuota_checks_allocation env_ok 1 (B "/export/pvc-1")
                (B "5") q) as [_ H].
    rewrite H; [|vm_compute; reflexivity]. vm_compute. reflexivity.
Defined.

(** C7, as the code has it. For every tag of 16 bits, every non-empty
    directory without a newline and every non-empty decimal limit, the
    block [AddProject] writes is read back by [restoreQuotas] as that
    tag, directory and limit, and as nothing else; and a file made of
    such blocks is read back as the list of their records. *)
Theorem block_roundtrip projectId directory bhard :
  projectId <= MaxUint16 ->
  directory <> [] -> no_newline directory ->
  bhard <> [] -> digit_string bhard ->
  FindAllSubmatch restore_re (block_of projectId directory bhard)
  = [[block_of projectId directory bhard; FormatUint projectId;
      directory; bhard]]
  /\ loadRecords (block_of projectId directory bhard)
     = [(projectId, directory, bhard)]
  /\ forall before after,
       Forall writable before -> Forall writable after ->
       loadRecords (concat (map block_of_record before)
                    ++ block_of projectId directory bhard
                    ++ concat (map block_of_record after))
       = before ++ (projectId, directory, bhard) :: after.
Proof.
  intros Hid Hdir Hdnl Hb Hbd.
  assert (Hw : writable (projectId, directory, bhard)) by done.
  split; [|split].
  - pose proof (FindAllSubmatch_blocks
                  [(FormatUint projectId, directory, bhard)]) as H.
    cbn [map concat text_of match_of] in H. rewrite app_nil_r in H.
    apply H. constructor; [|done].
    repeat split; auto using strconv_facts.FormatUint_not_nil,
      strconv_facts.FormatUint_digits, digit_string_no_newline,
      digit_string_no_colon.
  - pose proof (loadRecords_blocks [(projectId, directory, bhard)]) as H.
    cbn [map concat block_of_record] in H. rewrite app_nil_r in H.
    apply H. by constructor.
  - intros before after Hbefore Hafter.
    pose proof (loadRecords_blocks
                  (before ++ (projectId, directory, bhard) :: after)) as H.
    rewrite map_app, concat_app in H. cbn [map concat block_of_record] in H.
    apply H. apply Forall_app. split; [done|]. by constructor.
Qed.

(** C7 at tag 7, directory [/data/vol1] and limit 5. *)
Lemma block_roundtrip_witness :
  loadRecords (nl :: B "7:/data/vol1:5" ++ [nl]) = [(7, B "/data/vol1", B "5")].
Proof.
  apply (block_roundtrip 7 (B "/data/vol1") (B "5")).
  - vm_compute. discriminate.
  - discriminate.
  - repeat constructor; discriminate.
  - discriminate.
  - repeat constructor.
Defined.

(** C7 fails as stated: the empty directory has no newline, and the
    block written for it is not read back at all, since the pattern wants
    at least one byte between the colons. *)
Lemma block_roundtrip_empty_directory :
  no_newline (B "") /\ digit_string (B "5") /\
  block_of 7 (B "") (B "5") = nl :: B "7::5" ++ [nl] /\
  loadRecords (block_of 7 (B "") (B "5")) = [] /\
  loadRecords (block_of 7 (B "") (B "5")) <> [(7, B "", B "5")].
Proof.
  split; [constructor|]. split; [repeat constructor|].
  vm_compute. repeat split; discriminate.
Qed.

(** C8, as the code has it. When [newXfsQuotaer] gets as far as
    [restoreQuotas], the tags found by the scan of the projects file are
    in the project id map in the state in which [restoreQuotas] starts.
    [restoreQuotas] then adds no tag and takes out only tags of records
    whose directory is missing, whether or not the text of such a record
    leaves the file; when it cannot read the file it fails with the map
    untouched. *)
Theorem newXfsQuotaer_registers_before_restore env h err q' :
  newXfsQuotaer env h = (err, Some q') ->
  exists q0,
    before_restore env h = inr q0 /\
    (forall content m,
       projects h = Some content -> readOk env [] = true ->
       m ∈ FindAllSubmatch scan_re content ->
       file q0 = content /\ projectIds q0 !! match_id m = Some true) /\
    (forall id,
       projectIds q' !! id = projectIds q0 !! id \/
       (projectIds q' !! id = None /\
        exists m, m ∈ FindAllSubmatch restore_re (file q0) /\
                  stale env m = true /\ match_id m = id)) /\
    (readOk env (log q0) = false ->
       projectIds q' = projectIds q0 /\ err <> None).
Proof.
  unfold newXfsQuotaer. intros H.
  destruct (before_restore env h) as [e|q0] eqn:Hq0; [discriminate|].
  exists q0. split; [done|].
  destruct (restoreQuotas env q0) as [err0 q1] eqn:Hr.
  assert (Hq' : q' = snd (restoreQuotas env q0)).
  { rewrite Hr. destruct err0; by injection H as _ <-. }
  split; [|split].
  - intros content m Hc Hread Hm. unfold before_restore in Hq0.
    destruct (validation h); [discriminate|]. rewrite Hc in Hq0.
    unfold getExistingIds, ReadFile, bind, gets, modify, ret in Hq0.
    cbn in Hq0. rewrite Hread in Hq0. cbn in Hq0.
    injection Hq0 as <-. cbn. split; [done|]. by apply scan_registers.
  - intros id. rewrite Hq'. apply restoreQuotas_projectIds.
  - intros Hread. rewrite restoreQuotas_unread in Hr by done.
    injection Hr as <- <-. injection H as <- <-. split; done.
Qed.

(** C8 on the spec's scenario with the directory present: tag 7 is
    registered by the scan and stays allocated. *)
Lemma newXfsQuotaer_registers_before_restore_witness :
  let r := newXfsQuotaer env_ok host_vol1 in
  fst r = None /\
  exists q' q0,
    snd r = Some q' /\
    before_restore env_ok host_vol1 = inr q0 /\
    projectIds q0 !! 7 = Some true /\
    calls q' = [CallSetQuota 7 (B "/data/vol1") (B "5Gi") None] /\
    projectIds q' !! 7 = Some true.
Proof.
  intros r. split; [vm_compute; reflexivity|].
  destruct (restoreQuotas env_ok
              (set_projectIds (fun _ => {[ 7 := true ]})
                 (add_event EvReadFile (fresh ∅ vol1_block))))
    as [e q'] eqn:Hq'.
  assert (Hr : newXfsQuotaer env_ok host_vol1 = (None, Some q')).
  { revert Hq'. vm_compute. by intros [= <- <-]. }
  destruct (newXfsQuotaer_registers_before_restore env_ok host_vol1 None q' Hr)
    as (q0 & Hq0 & Hscan & _).
  exists q', q0. split; [by unfold r; rewrite Hr|]. split; [done|].
  split.
  { apply (Hscan vol1_block [B "7:/data/vol1:5Gi"; B "7"]);
      [reflexivity|reflexivity|]. vm_compute. by left. }
  revert Hq'. vm_compute. by intros [= _ <-].
Defined.

(** C8 fails as stated: the scan registers tag 7; the directory of the
    record is missing and the projects file cannot be rewritten, so
    [restoreQuotas] releases tag 7 and leaves the record where it is.
    Construction succeeds with tag 7 in the file and not in the map. *)
Lemma newXfsQuotaer_frees_tag_in_file :
  match before_restore env_gone_remove_fail host_vol1,
        newXfsQuotaer env_gone_remove_fail host_vol1 with
  | inr q0, (None, Some q') =>
      projectIds q0 !! 7 = Some true /\
      file q' = vol1_block /\
      map match_id (FindAllSubmatch scan_re (file q')) = [7] /\
      loadRecords (file q') = [(7, B "/data/vol1", B "5Gi")] /\
      projectIds q' !! 7 = None
  | _, _ => False
  end.
Proof. vm_compute. repeat split. Qed.

(** C9. A record whose tag is a numeral above 65535 is matched like any
    other; [ParseUint] answers 65535 with a range error, the error is
    dropped, and every match with that numeral carries tag 65535. The
    record is handled under tag 65535: [RemoveProject] with 65535 when
    its directory is missing, [SetQuota] with 65535 otherwise. *)
Theorem restore_saturates_tag env ds directory bhard q :
  ds <> [] -> digit_string ds -> 65535 < dec_value ds ->
  directory <> [] -> no_newline directory ->
  bhard <> [] -> no_newline bhard -> no_colon bhard ->
  file q = block_text ds directory bhard ->
  readOk env (log q) = true ->
  ParseUint ds 16 = (65535, Some ErrRange) /\
  (forall m, nth 1 m [] = ds -> match_id m = 65535) /\
  loadRecords (file q) = [(65535, directory, bhard)] /\
  exists err,
    calls (snd (restoreQuotas env q))
    = calls q ++
      [match stat env directory with
       | StatNotExist =>
           CallRemoveProject (block_text ds directory bhard) 65535 err
       | _ => CallSetQuota 65535 directory bhard err
       end].
Proof.
  intros Hds Hdig Hbig Hdir Hdnl Hb Hbnl Hbc Hfile Hread.
  pose proof (strconv_facts.ParseUint_saturates ds Hds Hdig Hbig) as Hparse.
  assert (Hm : FindAllSubmatch restore_re (file q)
               = [[block_text ds directory bhard; ds; directory; bhard]]).
  { pose proof (FindAllSubmatch_blocks [(ds, directory, bhard)]) as H.
    cbn [map concat text_of match_of] in H. rewrite app_nil_r in H.
    rewrite Hfile. apply H. by constructor. }
  assert (Hid : match_id [block_text ds directory bhard; ds; directory; bhard]
                = 65535).
  { unfold match_id. cbn [nth]. by rewrite Hparse. }
  split; [done|]. split.
  { intros m0 Hm0. unfold match_id. by rewrite Hm0, Hparse. }
  split.
  { unfold loadRecords. rewrite Hm. cbn [map]. unfold record_of.
    by rewrite Hid. }
  rewrite restoreQuotas_read, Hm by done.
  set (m := [block_text ds directory bhard; ds; directory; bhard]) in *.
  destruct (stale env m) eqn:Hst.
  - rewrite restore_loop_stale by done. cbv zeta. rewrite Hid.
    unfold stale in Hst. cbn [nth m] in *.
    destruct (stat env directory); try discriminate.
    cbn [restore_loop ret snd calls add_call].
    rewrite RemoveProject_eq. cbn [fst snd calls add_event]. by eexists.
  - rewrite restore_loop_present by done. cbv zeta. rewrite Hid.
    pose proof (SetQuota_calls env 65535 (nth 2 m []) (nth 3 m [])
                  (add_event EvReadFile q)) as Hc.
    unfold stale in Hst. cbn [nth m] in *.
    destruct (SetQuota env 65535 directory bhard (add_event EvReadFile q))
      as [[e|] q2]; cbn [fst snd] in *.
    + exists (Some e). cbn [snd calls add_call]. rewrite Hc.
      by destruct (stat env directory).
    + exists None. cbn [restore_loop ret snd calls add_call]. rewrite Hc.
      by destruct (stat env directory).
Qed.

(** C9 at tag 99999. *)
Lemma restore_saturates_tag_witness :
  let q := fresh ∅ (nl :: B "99999:/data/vol1:5Gi" ++ [nl]) in
  loadRecords (file q) = [(65535, B "/data/vol1", B "5Gi")].
Proof.
  intros q.
  apply (restore_saturates_tag env_ok (B "99999") (B "/data/vol1") (B "5Gi") q).
  - discriminate.
  - repeat constructor.
  - vm_compute. reflexivity.
  - discriminate.
  - repeat constructor; discriminate.
  - discriminate.
  - repeat constructor; discriminate.
  - repeat constructor; discriminate.
  - reflexivity.
  - reflexivity.
Defined.

(** C10. [RemoveProject] deletes the tag from the project id map whatever
    the removal from the projects file does; when that removal fails the
    error is returned, the file is what it was, and the tag is no longer
    in the map. *)
Theorem RemoveProject_releases_even_on_error env block projectId q :
  let r := RemoveProject env block projectId q in
  projectIds (snd r) = delete projectId (projectIds q) /\
  log (snd r) = log q ++ [EvRemove block] /\
  (removeOk env (log q) block = false ->
     fst r = Some (ErrFile (EvRemove block)) /\
     file (snd r) = file q /\
     projectIds (snd r) !! projectId = None).
Proof.
  intros r. unfold r. rewrite RemoveProject_eq. simpl.
  split; [done|]. split; [done|]. intros ->.
  split; [done|]. split; [done|]. apply lookup_delete_eq.
Qed.

(** C10 at a concrete input: the file cannot be rewritten. *)
Lemma RemoveProject_releases_even_on_error_witness :
  let q := fresh {[ 1 := true ]} (nl :: B "1:/export/pvc-1:5" ++ [nl]) in
  let block := nl :: B "1:/export/pvc-1:5" ++ [nl] in
  let r := RemoveProject env_exec_remove_fail block 1 q in
  fst r = Some (ErrFile (EvRemove block)) /\
  file (snd r) = file q /\
  projectIds (snd r) !! 1 = None.
Proof.
  intros q block r.
  apply (RemoveProject_releases_even_on_error env_exec_remove_fail block 1 q).
  vm_compute. reflexivity.
Defined.

(** * Further properties of [quota.go] *)

(** ** The checks on [xfsPath] *)

Module check_facts.
Import strings strings_facts.

Lemma HasPrefix_inv prefix : forall s,
  HasPrefix s prefix = true -> exists t, s = prefix ++ t.
Proof.
  induction prefix as [|p prefix IH]; intros s H; [by exists s|].
  destruct s as [|c s]; [done|]. cbn [HasPrefix] in H.
  apply andb_true_iff in H as [Hc H].
  apply Ascii.eqb_eq in Hc as ->. apply IH in H as [t ->]. by exists t.
Qed.

Lemma Index_empty s : Index s [] = Some 0%nat.
Proof. by destruct s. Qed.

(** [Index] answers where [substr] occurs. *)
Lemma Index_Some s : forall substr n,
  Index s substr = Some n ->
  exists a b, s = a ++ substr ++ b /\ length a = n.
Proof.
  induction s as [|c s IH]; intros substr n H.
  - destruct substr; [|done]. injection H as <-. by exists [], [].
  - rewrite Index_cons in H.
    destruct (HasPrefix (c :: s) substr) eqn:Hp.
    + injection H as <-. apply HasPrefix_inv in Hp as [t ->].
      by exists [], t.
    + destruct (Index s substr) as [m|] eqn:Hi; [|done].
      injection H as <-. apply IH in Hi as (a & b & -> & <-).
      by exists (c :: a), b.
Qed.

(** [Index] finds [substr] wherever it occurs. *)
Lemma Index_occurs substr b : forall a,
  Index (a ++ substr ++ b) substr <> None.
Proof.
  induction a as [|c a IH].
  - cbn [app]. destruct (substr ++ b) as [|c s] eqn:Hs.
    + by destruct substr.
    + rewrite Index_cons, <- Hs, HasPrefix_app. done.
  - cbn [app]. rewrite Index_cons.
    destruct (HasPrefix (c :: a ++ substr ++ b) substr); [done|].
    by destruct (Index (a ++ substr ++ b) substr).
Qed.

Lemma Contains_true s substr :
  Contains s substr = true <-> exists a b, s = a ++ substr ++ b.
Proof.
  unfold Contains. split.
  - destruct (Index s substr) as [n|] eqn:H; [|done]. intros _.
    apply Index_Some in H as (a & b & -> & _). by exists a, b.
  - intros (a & b & ->). pose proof (Index_occurs substr b a).
    by destruct (Index (a ++ substr ++ b) substr).
Qed.

Lemma asciiSpace_ascii c : asciiSpace c = true -> nonAscii c = false.
Proof.
  unfold asciiSpace, nonAscii. intros H. apply N.leb_gt.
  apply orb_true_iff in H as [H|H].
  - apply andb_true_iff in H as [_ H]. apply N.leb_le in H. lia.
  - apply N.eqb_eq in H. lia.
Qed.

Lemma trim_start_spaces lead rest :
  Forall (fun c => asciiSpace c = true) lead ->
  trim_start (lead ++ rest) = trim_start rest.
Proof.
  induction 1 as [|c lead Hc _ IH]; [done|]. cbn [app trim_start].
  by rewrite (asciiSpace_ascii c Hc), Hc.
Qed.

Lemma trim_stop_spaces trail rest :
  Forall (fun c => asciiSpace c = true) trail ->
  trim_stop (rev trail ++ rest) = trim_stop rest.
Proof.
  intros H. apply Forall_rev in H. revert H. generalize (rev trail).
  induction 1 as [|c r Hc _ IH]; [done|]. cbn [app trim_stop].
  by rewrite (asciiSpace_ascii c Hc), Hc.
Qed.

(** ASCII white space around a word whose first and last bytes are plain
    is dropped, and nothing else is. *)
Lemma TrimSpace_word TrimUnicode lead word trail :
  Forall (fun c => asciiSpace c = true) lead ->
  Forall (fun c => asciiSpace c = true) trail ->
  (forall c, head word = Some c -> plain c) ->
  (forall c, last word = Some c -> plain c) ->
  TrimSpace TrimUnicode (lead ++ word ++ trail) = word.
Proof.
  intros Hlead Htrail Hhd Hlast. unfold TrimSpace.
  rewrite trim_start_spaces by done.
  destruct word as [|c word].
  - cbn [app]. rewrite <- (app_nil_r trail) at 1.
    rewrite trim_start_spaces by done. cbn [trim_start rev].
    reflexivity.
  - destruct (Hhd c eq_refl) as [Hc1 Hc2].
    cbn [app trim_start]. rewrite Hc1, Hc2.
    change (c :: word ++ trail) with ((c :: word) ++ trail).
    rewrite rev_app_distr, trim_stop_spaces by done.
    destruct (rev (c :: word)) as [|d r] eqn:Hr.
    { apply (f_equal (@length ascii)) in Hr. rewrite length_rev in Hr.
      discriminate. }
    assert (Hd : last (c :: word) = Some d).
    { rewrite <- (rev_involutive (c :: word)), Hr. cbn [rev].
      apply last_snoc. }
    destruct (Hlast d Hd) as [Hd1 Hd2]. cbn [trim_stop].
    rewrite Hd1, Hd2. by rewrite <- Hr, rev_involutive.
Qed.

Section Checks.
Context (TrimUnicode Clean : bytes -> bytes).

Lemma find_entry_Some entries mountpoint fstype e :
  find_entry entries mountpoint fstype = Some e <->
  exists pre post,
    entries = pre ++ e :: post /\
    Forall (other mountpoint fstype) pre /\
    Mountpoint e = mountpoint /\ Fstype e = fstype.
Proof.
  split.
  - induction entries as [|e0 entries IH]; [done|]. cbn [find_entry].
    destruct (bool_decide (Mountpoint e0 = mountpoint)
              && bool_decide (Fstype e0 = fstype)) eqn:Hm.
    + intros [= <-]. apply andb_true_iff in Hm as [H1 H2].
      apply bool_decide_eq_true in H1, H2. by exists [], entries.
    + intros H. apply IH in H as (pre & post & -> & Hpre & ? & ?).
      exists (e0 :: pre), post. repeat split; try done.
      constructor; [|done]. intros [H1 H2].
      apply andb_false_iff in Hm as [Hm|Hm];
        apply bool_decide_eq_false in Hm; done.
  - intros (pre & post & -> & Hpre & H1 & H2).
    induction Hpre as [|e0 pre He0 _ IH]; cbn [app find_entry].
    + by rewrite !bool_decide_eq_true_2.
    + destruct (bool_decide (Mountpoint e0 = mountpoint)
                && bool_decide (Fstype e0 = fstype)) eqn:Hm; [|done].
      apply andb_true_iff in Hm as [Hm1 Hm2].
      apply bool_decide_eq_true in Hm1, Hm2. by destruct He0.
Qed.

Lemma find_entry_None entries mountpoint fstype :
  find_entry entries mountpoint fstype = None <->
  Forall (other mountpoint fstype) entries.
Proof.
  induction entries as [|e0 entries IH]; cbn [find_entry]; [done|].
  destruct (bool_decide (Mountpoint e0 = mountpoint)
            && bool_decide (Fstype e0 = fstype)) eqn:Hm.
  - apply andb_true_iff in Hm as [H1 H2].
    apply bool_decide_eq_true in H1, H2. split; [done|].
    intros H. apply Forall_cons in H as [H _]. by destruct H.
  - rewrite IH. split.
    + intros H. constructor; [|done]. intros [H1 H2].
      apply andb_false_iff in Hm as [Hm|Hm];
        apply bool_decide_eq_false in Hm; done.
    + intros H. by apply Forall_cons in H as [_ H].
Qed.

End Checks.
End check_facts.

Import check_facts.

(** X1. [getMountEntry] returns the first entry of the mount table with
    the given mount point and file system type, whatever comes after it;
    it fails when the table cannot be read or holds no such entry. *)
Theorem getMountEntry_first_match p mountpoint fstype :
  match getMountEntry p mountpoint fstype with
  | (Some e, None) =>
      exists pre post,
        GetMounts p = Some (pre ++ e :: post) /\
        Forall (other mountpoint fstype) pre /\
        Mountpoint e = mountpoint /\ Fstype e = fstype
  | (None, Some ErrGetMounts) => GetMounts p = None
  | (None, Some ErrNoMountEntry) =>
      exists entries,
        GetMounts p = Some entries /\ Forall (other mountpoint fstype) entries
  | _ => False
  end.
Proof.
  unfold getMountEntry. destruct (GetMounts p) as [entries|]; [|done].
  destruct (find_entry entries mountpoint fstype) as [e|] eqn:H.
  - apply find_entry_Some in H as (pre & post & -> & ? & ? & ?).
    by exists pre, post.
  - apply find_entry_None in H. by exists entries.
Qed.

(** X2. [isXfs] returns an error exactly when the [stat] command fails.
    Otherwise it answers whether the output, trimmed by
    [strings.TrimSpace], is ["xfs"]. When the output is ASCII white space
    around a word whose first and last bytes are ASCII and not white
    space, the trimmed output is that word, so that the answer is whether
    the word is ["xfs"] byte for byte. What [TrimSpace] makes of a byte
    that is not ASCII is left to [TrimUnicode]. *)
Theorem isXfs_trims_and_compares TrimUnicode p :
  (snd (isXfs TrimUnicode p) <> None <-> statOutput p = None) /\
  (statOutput p = None -> isXfs TrimUnicode p = (false, Some ErrIsXfs)) /\
  (forall out,
     statOutput p = Some out ->
     isXfs TrimUnicode p
     = (bool_decide (TrimSpace TrimUnicode out = B "xfs"), None)) /\
  (forall lead word trail,
     statOutput p = Some (lead ++ word ++ trail) ->
     Forall (fun c => asciiSpace c = true) lead ->
     Forall (fun c => asciiSpace c = true) trail ->
     (forall c, head word = Some c -> plain c) ->
     (forall c, last word = Some c -> plain c) ->
     TrimSpace TrimUnicode (lead ++ word ++ trail) = word /\
     isXfs TrimUnicode p = (bool_decide (word = B "xfs"), None)).
Proof.
  assert (Hout : forall out,
            statOutput p = Some out ->
            isXfs TrimUnicode p
            = (bool_decide (TrimSpace TrimUnicode out = B "xfs"), None)).
  { unfold isXfs. intros out ->.
    destruct (decide (TrimSpace TrimUnicode out = B "xfs")) as [Heq|Hne].
    - rewrite bool_decide_eq_false_2 by (intros H; by apply H).
      by rewrite bool_decide_eq_true_2.
    - by rewrite bool_decide_eq_true_2, (bool_decide_eq_false_2 _ Hne). }
  split; [|split; [|split]].
  - destruct (statOutput p) as [out|] eqn:Hp.
    + rewrite (Hout out eq_refl). by split.
    + unfold isXfs. rewrite Hp. by split.
  - unfold isXfs. by intros ->.
  - exact Hout.
  - intros lead word trail Hp Hlead Htrail Hhd Hlast.
    assert (Htrim : TrimSpace TrimUnicode (lead ++ word ++ trail) = word)
      by by apply TrimSpace_word.
    split; [done|]. rewrite (Hout _ Hp). by rewrite Htrim.
Qed.

(** X2 on what [stat] prints for an XFS file system and for another. *)
Lemma isXfs_trims_and_compares_witness :
  let xfs := {| xfsPathStat := StatOk; statOutput := Some (B "xfs" ++ [nl]);
                GetMounts := None; LookPath := true |} in
  let ext := {| xfsPathStat := StatOk;
                statOutput := Some (B " ext2/ext3" ++ [nl]);
                GetMounts := None; LookPath := true |} in
  let failing := {| xfsPathStat := StatOk; statOutput := None;
                    GetMounts := None; LookPath := true |} in
  isXfs id xfs = (true, None) /\ isXfs id ext = (false, None) /\
  isXfs id failing = (false, Some ErrIsXfs).
Proof.
  intros xfs ext failing. split; [|split].
  - destruct (isXfs_trims_and_compares id xfs) as (_ & _ & _ & H).
    apply (H [] (B "xfs") [nl]); try done.
    + by repeat constructor.
    + intros c [= <-]. by split.
    + intros c [= <-]. by split.
  - destruct (isXfs_trims_and_compares id ext) as (_ & _ & _ & H).
    apply (H (B " ") (B "ext2/ext3") [nl]); try done.
    + by repeat constructor.
    + by repeat constructor.
    + intros c [= <-]. by split.
    + intros c [= <-]. by split.
  - by apply (isXfs_trims_and_compares id failing).
Defined.

(** X3. [newXfsQuotaer] gets past its checks exactly when [xfsPath] is
    not reported missing, [stat] prints ["xfs"] (trimmed), the first
    entry of the mount table for the cleaned path and type ["xfs"] has
    ["pquota"] or ["prjquota"] somewhere in its options, and [xfs_quota]
    is found. Later entries for the same mount point are not looked at.
    When a check fails [newXfsQuotaer] returns an error and no quotaer,
    whatever the projects file holds and whatever the host would answer
    to the file operations and to [xfs_quota]. *)
Theorem check_xfsPath_passes TrimUnicode Clean xfsPath p :
  (check_xfsPath TrimUnicode Clean xfsPath p = None <->
   xfsPathStat p <> StatNotExist /\
   (exists out, statOutput p = Some out /\
                TrimSpace TrimUnicode out = B "xfs") /\
   (exists pre e post,
      GetMounts p = Some (pre ++ e :: post) /\
      Forall (other (Clean xfsPath) (B "xfs")) pre /\
      Mountpoint e = Clean xfsPath /\ Fstype e = B "xfs" /\
      exists a b, VfsOpts e = a ++ B "pquota" ++ b \/
                  VfsOpts e = a ++ B "prjquota" ++ b) /\
   LookPath p = true) /\
  (forall env projectsFile canCreate,
     check_xfsPath TrimUnicode Clean xfsPath p <> None ->
     newXfsQuotaer env
       (host_of TrimUnicode Clean xfsPath p projectsFile canCreate)
     = (Some ErrValidation, None)).
Proof.
  split.
  - unfold check_xfsPath, isXfs, getMountEntry. split.
    + intros H.
      destruct (xfsPathStat p) eqn:Hstat; try discriminate;
        (split; [done|]);
        (destruct (statOutput p) as [out|]; [|discriminate]);
        (destruct (bool_decide (TrimSpace TrimUnicode out <> B "xfs"))
           eqn:Hx; [discriminate|]);
        apply bool_decide_eq_false in Hx;
        (assert (Hxfs : TrimSpace TrimUnicode out = B "xfs")
           by (destruct (decide (TrimSpace TrimUnicode out = B "xfs"));
               [done|by destruct Hx]));
        (split; [by exists out|]);
        (destruct (GetMounts p) as [entries|]; [|discriminate]);
        (destruct (find_entry entries (Clean xfsPath) (B "xfs")) as [e|]
           eqn:He; [|discriminate]);
        apply find_entry_Some in He as (pre & post & -> & Hpre & H1 & H2);
        (destruct (Contains (VfsOpts e) (B "pquota")) eqn:Hp;
         destruct (Contains (VfsOpts e) (B "prjquota")) eqn:Hj;
         cbn [negb andb] in H; try discriminate);
        (destruct (LookPath p); [|discriminate]);
        (split; [|done]); exists pre, e, post;
        (do 4 (split; [done|]));
        try (apply Contains_true in Hp as (a & b & Hab); exists a, b;
             by left);
        apply Contains_true in Hj as (a & b & Hab); exists a, b; by right.
    + intros (Hstat & (out & -> & Hxfs) & (pre & e & post & -> & Hpre
              & H1 & H2 & a & b & Hopts) & ->).
      rewrite Hxfs.
      rewrite bool_decide_eq_false_2 by (intros H; by apply H).
      assert (He : find_entry (pre ++ e :: post) (Clean xfsPath) (B "xfs")
                   = Some e).
      { apply find_entry_Some. by exists pre, post. }
      rewrite He.
      assert (Hc : Contains (VfsOpts e) (B "pquota") = true \/
                   Contains (VfsOpts e) (B "prjquota") = true).
      { destruct Hopts as [H|H]; [left|right]; apply Contains_true;
          by exists a, b. }
      destruct (xfsPathStat p); try done;
        destruct Hc as [-> | ->]; cbn [negb andb]; try done;
        by rewrite andb_false_r.
  - intros env projectsFile canCreate H. unfold newXfsQuotaer, before_restore.
    cbn [validation host_of].
    by destruct (check_xfsPath TrimUnicode Clean xfsPath p).
Qed.

(** X3 on a mount table with two entries for [/export]: the first, without
    a project quota option, decides, although the second has one; with
    the entries swapped the checks pass. *)
Lemma check_xfsPath_passes_witness :
  let plain_mount := {| Mountpoint := B "/export"; Fstype := B "xfs";
                        VfsOpts := B "rw,noatime" |} in
  let quota_mount := {| Mountpoint := B "/export"; Fstype := B "xfs";
                        VfsOpts := B "rw,prjquota" |} in
  let probe mounts := {| xfsPathStat := StatOk;
                         statOutput := Some (B "xfs" ++ [nl]);
                         GetMounts := Some mounts; LookPath := true |} in
  newXfsQuotaer env_ok
    (host_of id id (B "/export") (probe [plain_mount; quota_mount]) None true)
  = (Some ErrValidation, None) /\
  check_xfsPath id id (B "/export") (probe [quota_mount; plain_mount]) = None.
Proof.
  intros plain_mount quota_mount probe. split.
  - apply (check_xfsPath_passes id id (B "/export")
             (probe [plain_mount; quota_mount])).
    vm_compute. discriminate.
  - apply (check_xfsPath_passes id id (B "/export")
             (probe [quota_mount; plain_mount])).
    split; [discriminate|]. split.
    { exists (B "xfs" ++ [nl]). split; [reflexivity|]. vm_compute. reflexivity. }
    split; [|reflexivity].
    exists [], quota_mount, [plain_mount].
    split; [reflexivity|]. split; [constructor|].
    split; [reflexivity|]. split; [reflexivity|].
    exists (B "rw,"), []. by right.
Defined.

(** ** What [restoreQuotas] does and does not do *)

Lemma restore_loop_log env ms : forall q,
  exists evs,
    log (snd (restore_loop env ms q)) = log q ++ evs /\
    Forall (restore_event ms) evs.
Proof.
  induction ms as [|m ms IH]; intros q.
  - exists []. by rewrite app_nil_r.
  - assert (Hweak : forall evs, Forall (restore_event ms) evs ->
                      Forall (restore_event (m :: ms)) evs).
    { intros evs H. eapply Forall_impl; [exact H|].
      intros e (m0 & Hin & He). exists m0. split; [by right|done]. }
    destruct (stale env m) eqn:Hst.
    + rewrite restore_loop_stale by done. cbv zeta.
      rewrite RemoveProject_eq. cbn [fst snd].
      destruct (IH (add_call
                      (CallRemoveProject (nth 0 m []) (match_id m)
                         (if removeOk env (log q) (nth 0 m []) then None
                          else Some (ErrFile (EvRemove (nth 0 m [])))))
                      {| projectIds := delete (match_id m) (projectIds q);
                         file := if removeOk env (log q) (nth 0 m [])
                                 then RemoveAll (file q) (nth 0 m [])
                                 else file q;
                         log := log q ++ [EvRemove (nth 0 m [])];
                         calls := calls q |})) as (evs & -> & Hevs).
      exists (EvRemove (nth 0 m []) :: evs). cbn [log add_call].
      split; [by rewrite <- app_assoc|].
      constructor; [|by apply Hweak].
      exists m. split; [by left|by left].
    + rewrite restore_loop_present by done. cbv zeta.
      rewrite SetQuota_eq.
      destruct (map_index (projectIds q) (match_id m)); cbn [fst snd].
      * set (command := limit_command (nth 3 m [])
                          (FormatUint (match_id m))).
        assert (Hev : restore_event (m :: ms) (EvExec command)).
        { exists m. split; [by left|by right]. }
        destruct (execOk env (log q) command).
        -- destruct (IH (add_call
                           (CallSetQuota (match_id m) (nth 2 m [])
                              (nth 3 m []) None)
                           (add_event (EvExec command) q)))
             as (evs & -> & Hevs).
           exists (EvExec command :: evs). cbn [log add_call add_event].
           split; [by rewrite <- app_assoc|].
           constructor; [done|by apply Hweak].
        -- exists [EvExec command]. cbn [snd log add_call add_event].
           split; [done|by constructor].
      * exists []. cbn [snd log add_call]. by rewrite app_nil_r.
Qed.

Lemma limit_is_not_project bhard s directory s' :
  limit_command bhard s <> project_command directory s'.
Proof. unfold limit_command, project_command. discriminate. Qed.

(** X4. Whatever the host does, [restoreQuotas] reads the projects file
    once and then only removes the text of records it read and runs the
    limit command for records it read: it never appends to the file and
    never runs the [project] command that ties a directory to a tag. *)
Theorem restoreQuotas_only_removes_and_limits env q :
  exists evs,
    log (snd (restoreQuotas env q)) = log q ++ EvReadFile :: evs /\
    Forall (restore_event (FindAllSubmatch restore_re (file q))) evs /\
    (EvReadFile ∉ evs) /\
    (forall block, EvAppend block ∉ evs) /\
    (forall directory projectIdStr,
       EvExec (project_command directory projectIdStr) ∉ evs).
Proof.
  assert (H : exists evs,
             log (snd (restoreQuotas env q)) = log q ++ EvReadFile :: evs /\
             Forall (restore_event (FindAllSubmatch restore_re (file q))) evs).
  { destruct (readOk env (log q)) eqn:Hread.
    - rewrite restoreQuotas_read by done.
      destruct (restore_loop_log env (FindAllSubmatch restore_re (file q))
                  (add_event EvReadFile q)) as (evs & -> & Hevs).
      exists evs. cbn [log add_event]. by rewrite <- app_assoc.
    - rewrite restoreQuotas_unread by done. exists []. by split. }
  destruct H as (evs & Hlog & Hevs). exists evs.
  split; [done|]. split; [done|].
  assert (Hno : forall e, e ∈ evs ->
                  restore_event (FindAllSubmatch restore_re (file q)) e).
  { intros e. by apply Forall_forall. }
  split; [|split].
  - intros Hin. by destruct (Hno _ Hin) as (m & _ & [H|H]).
  - intros block Hin. by destruct (Hno _ Hin) as (m & _ & [H|H]).
  - intros directory projectIdStr Hin.
    destruct (Hno _ Hin) as (m & _ & [H|H]); [done|].
    apply (limit_is_not_project (nth 3 m []) (FormatUint (match_id m))
             directory projectIdStr).
    congruence.
Qed.

Lemma restore_loop_no_stale env ms : forall q,
  Forall (fun m => stale env m = false) ms ->
  file (snd (restore_loop env ms q)) = file q /\
  projectIds (snd (restore_loop env ms q)) = projectIds q.
Proof.
  induction ms as [|m ms IH]; intros q Hms; [done|].
  apply Forall_cons in Hms as [Hst Hms].
  rewrite restore_loop_present by done. cbv zeta. rewrite SetQuota_eq.
  destruct (map_index (projectIds q) (match_id m)); cbn [fst snd]; [|done].
  destruct (execOk env (log q) _); [|done].
  by destruct (IH (add_call
                     (CallSetQuota (match_id m) (nth 2 m []) (nth 3 m []) None)
                     (add_event
                        (EvExec (limit_command (nth 3 m [])
                                   (FormatUint (match_id m)))) q)) Hms).
Qed.

(** X5. When no record of the projects file has its directory reported
    missing, [restoreQuotas] changes neither the file nor the project id
    map, whether it succeeds or fails. *)
Theorem restoreQuotas_keeps_state env q :
  Forall (fun m => stale env m = false)
    (FindAllSubmatch restore_re (file q)) ->
  file (snd (restoreQuotas env q)) = file q /\
  projectIds (snd (restoreQuotas env q)) = projectIds q.
Proof.
  intros H. destruct (readOk env (log q)) eqn:Hread.
  - rewrite restoreQuotas_read by done.
    by destruct (restore_loop_no_stale env _ (add_event EvReadFile q) H).
  - by rewrite restoreQuotas_unread.
Qed.

(** X5 on a file of two records whose limit command fails. *)
Lemma restoreQuotas_keeps_state_witness :
  let q := fresh {[ 7 := true; 8 := true ]}
             (vol1_block ++ nl :: B "8:/data/vol2:1Gi" ++ [nl]) in
  file (snd (restoreQuotas env_ok_exec_fail q)) = file q /\
  projectIds (snd (restoreQuotas env_ok_exec_fail q)) = projectIds q.
Proof.
  intros q. apply (restoreQuotas_keeps_state env_ok_exec_fail q).
  vm_compute. by repeat constructor.
Defined.

(** ** What the restore pattern reads *)

Lemma match_here_restore_text prev s m :
  match_here restore_re prev s = Some m ->
  exists tail, s = nth 0 m [] ++ tail.
Proof.
  unfold match_here. intros H.
  apply run_restore_re_inv
    in H as (ds & directory & bhard & tail & p & -> & _ & _ & _ & _ & _ & _ & H).
  rewrite take_app_sub in H. injection H as <-. by exists tail.
Qed.

Lemma find_all_restore_occurs s : forall pre skip prev m,
  m ∈ find_all restore_re prev s skip ->
  exists a b, pre ++ s = a ++ nth 0 m [] ++ b.
Proof.
  induction s as [|c s IH]; intros pre skip prev m Hin.
  - by apply elem_of_nil in Hin.
  - assert (Hnext : forall skip' prev',
              m ∈ find_all restore_re prev' s skip' ->
              exists a b, pre ++ c :: s = a ++ nth 0 m [] ++ b).
    { intros skip' prev' H. apply (IH (pre ++ [c])) in H as (a & b & H).
      exists a, b. by rewrite <- H, <- app_assoc. }
    cbn [find_all] in Hin. destruct skip as [|skip]; [|by eapply Hnext].
    destruct (match_here restore_re prev (c :: s)) as [m0|] eqn:Hm;
      [|by eapply Hnext].
    apply elem_of_cons in Hin as [->|Hin]; [|by eapply Hnext].
    apply match_here_restore_text in Hm as [tail ->]. by exists pre, tail.
Qed.

Lemma match_id_min block ds directory bhard :
  ds <> [] -> digit_string ds ->
  match_id [block; ds; directory; bhard] = N.min (dec_value ds) 65535.
Proof.
  intros Hne Hds. unfold match_id. cbn [nth].
  destruct (N.le_gt_cases (dec_value ds) 65535) as [Hle|Hgt].
  - rewrite strconv_facts.ParseUint_in_range by done. cbn [fst].
    rewrite N.min_l by done. unfold uint16. apply N.mod_small. lia.
  - rewrite strconv_facts.ParseUint_saturates by done. cbn [fst].
    rewrite N.min_r by lia. done.
Qed.

(** X6. Every record [restoreQuotas] reads from a projects file, whatever
    the file holds, is a line of the file framed by newlines, made of a
    non-empty digit string, a colon, a non-empty directory, a colon and a
    non-empty limit, directory and limit without a newline. Its tag is
    the value of the digit string capped at 65535, and the text handed
    to [RemoveProject] occurs in the file. *)
Theorem restore_reads_framed_lines content m :
  m ∈ FindAllSubmatch restore_re content ->
  exists ds directory bhard,
    m = [block_text ds directory bhard; ds; directory; bhard] /\
    ds <> [] /\ digit_string ds /\
    directory <> [] /\ no_newline directory /\
    bhard <> [] /\ no_newline bhard /\
    record_of m = (N.min (dec_value ds) 65535, directory, bhard) /\
    exists a b, content = a ++ block_text ds directory bhard ++ b.
Proof.
  intros Hin.
  pose proof (FindAllSubmatch_restore_inv content m Hin)
    as (ds & directory & bhard & -> & Hne & Hds & ? & ? & ? & ?).
  apply (find_all_restore_occurs content []) in Hin as (a & b & Hab).
  exists ds, directory, bhard. do 7 (split; [done|]). split.
  - unfold record_of. by rewrite match_id_min.
  - by exists a, b.
Qed.

(** X6 on a file with stray text around one record whose tag has leading
    zeros. *)
Lemma restore_reads_framed_lines_witness :
  let content := B "# projects" ++ nl :: B "007:/data/vol1:5Gi" ++ nl :: B "x" in
  exists ds directory bhard,
    [nl :: B "007:/data/vol1:5Gi" ++ [nl]; B "007"; B "/data/vol1"; B "5Gi"]
    = [block_text ds directory bhard; ds; directory; bhard] /\
    record_of [nl :: B "007:/data/vol1:5Gi" ++ [nl]; B "007"; B "/data/vol1";
               B "5Gi"]
    = (N.min (dec_value ds) 65535, directory, bhard) /\
    exists a b, content = a ++ block_text ds directory bhard ++ b.
Proof.
  intros content.
  destruct (restore_reads_framed_lines content
              [nl :: B "007:/data/vol1:5Gi" ++ [nl]; B "007"; B "/data/vol1";
               B "5Gi"])
    as (ds & directory & bhard & H1 & _ & _ & _ & _ & _ & _ & H2 & H3).
  - vm_compute. by left.
  - by exists ds, directory, bhard.
Defined.

(** X7. A limit with a colon in it is not read back as written. When
    the limit is [b1], a colon and [b2], with [b2] not empty and without
    a colon, and the tag, the directory, [b1] and [b2] are such that
    [AddProject] can write the block (a tag of 16 bits, a directory that
    is not empty, no newline anywhere), [restoreQuotas] reads the block as
    one record whose directory is the directory written, a colon and
    [b1], and whose limit is [b2]. *)
Theorem limit_with_colon_is_split projectId directory b1 b2 :
  projectId <= MaxUint16 ->
  directory <> [] -> no_newline directory ->
  no_newline b1 ->
  b2 <> [] -> no_newline b2 -> no_colon b2 ->
  loadRecords (block_of projectId directory (b1 ++ colon :: b2))
  = [(projectId, directory ++ colon :: b1, b2)].
Proof.
  intros Hid Hdir Hdnl Hb1 Hb2 Hb2nl Hb2c.
  assert (Hblock : block_of projectId directory (b1 ++ colon :: b2)
                   = block_text (FormatUint projectId)
                       (directory ++ colon :: b1) b2).
  { unfold block_of, block_text. cbn [app]. f_equal. f_equal. f_equal.
    by rewrite <- !app_assoc. }
  rewrite Hblock. unfold loadRecords.
  pose proof (FindAllSubmatch_blocks
                [(FormatUint projectId, directory ++ colon :: b1, b2)]) as H.
  cbn [map concat text_of match_of] in H. rewrite app_nil_r in H.
  rewrite H.
  - cbn [map]. unfold record_of, match_id. cbn [nth].
    rewrite strconv_facts.ParseUint_FormatUint by done. cbn [fst].
    do 3 f_equal. unfold uint16, MaxUint16 in *. apply N.mod_small. lia.
  - constructor; [|done].
    split; [apply strconv_facts.FormatUint_not_nil|].
    split; [apply strconv_facts.FormatUint_digits|].
    split; [by destruct directory|].
    split; [|done].
    apply Forall_app. split; [done|]. constructor; [by vm_compute|done].
Qed.

(** X7 at the limit [5:6]. *)
Lemma limit_with_colon_is_split_witness :
  loadRecords (block_of 3 (B "/data/vol1") (B "5:6"))
  = [(3, B "/data/vol1:5", B "6")].
Proof.
  apply (limit_with_colon_is_split 3 (B "/data/vol1") (B "5") (B "6")).
  - vm_compute. discriminate.
  - discriminate.
  - repeat constructor; discriminate.
  - repeat constructor; discriminate.
  - discriminate.
  - repeat constructor; discriminate.
  - repeat constructor; discriminate.
Defined.

(** ** What the scan pattern reads *)

Module scan_facts.
Import regexp_facts.

Section Plus.
Context {A : Type} (cls : ascii -> bool).
Implicit Types (k : @cont A) (a rest : bytes).

(** A greedy run outside a group whose first try succeeds. *)
Lemma run_plus k caps prev a rest r :
  a <> [] -> Forall (fun c => cls c = true) a -> stops cls rest ->
  (forall p, k caps p rest = Some r) ->
  run (Plus cls) caps prev (a ++ rest) k = Some r.
Proof.
  intros Hne Ha Hstop Hk. destruct a as [|c a]; [done|].
  apply Forall_cons in Ha as [Hc Ha]. cbn [run app]. rewrite Hc.
  rewrite <- (app_nil_l rest) at 1.
  apply plus_loop_first; rewrite ?app_nil_r; try done.
  intros p b1 b2 Hnil Hb1. by destruct b1.
Qed.

(** A group that fails wherever its run is cut. *)
Lemma run_cap_plus_none k caps prev a rest :
  Forall (fun c => cls c = true) a -> stops cls rest ->
  (forall p a1 a2, a = a1 ++ a2 -> a1 <> [] ->
     k (caps ++ [a1]) p (a2 ++ rest) = None) ->
  run (Cap (Plus cls)) caps prev (a ++ rest) k = None.
Proof.
  intros Ha Hstop Hk. destruct a as [|c a].
  - cbn [run app]. destruct rest as [|c rest]; [done|].
    simpl in Hstop. by rewrite Hstop.
  - apply Forall_cons in Ha as [Hc Ha]. cbn [run app]. rewrite Hc.
    set (s := c :: a ++ rest).
    assert (Htake : forall x y, s = x ++ y ->
              take (length s - length y) s = x).
    { intros x y ->. apply take_app_sub. }
    rewrite plus_loop_back; try done.
    + rewrite (Htake [c] (a ++ rest)) by done. by apply (Hk _ [c] a).
    + intros p a1 a2 -> Ha1.
      rewrite (Htake (c :: a1) (a2 ++ rest)).
      * by apply (Hk p (c :: a1) a2).
      * unfold s. by rewrite <- app_assoc.
Qed.
End Plus.

Lemma match_here_scan_newline prev s :
  match_here scan_re prev (nl :: s) = None.
Proof.
  unfold match_here, scan_re. rewrite run_Seq.
  destruct prev as [p|]; cbn [run]; [destruct (Ascii.eqb p nl)|]; done.
Qed.

Lemma match_here_scan_inside p s :
  p <> nl -> match_here scan_re (Some p) s = None.
Proof.
  intros Hp. unfold match_here, scan_re. rewrite run_Seq. cbn [run].
  by destruct (Ascii.eqb_spec p nl).
Qed.

(** Inside a line the scan finds nothing. *)
Lemma find_all_scan_inside x : forall p tail,
  p <> nl -> no_newline x ->
  find_all scan_re (Some p) (x ++ nl :: tail) 0
  = find_all scan_re (Some nl) tail 0.
Proof.
  induction x as [|c x IH]; intros p tail Hp Hx; cbn [app find_all];
    rewrite match_here_scan_inside by done; [done|].
  apply Forall_cons in Hx as [Hc Hx]. by apply IH.
Qed.

Lemma run_scan_re {A} (k : @cont A) ds directory bhard tail r :
  ds <> [] -> digit_string ds ->
  no_newline directory -> absolute directory = true ->
  no_newline bhard ->
  (forall p, k [ds] p (nl :: tail) = Some r) ->
  run scan_re [] (Some nl)
    (ds ++ colon :: directory ++ colon :: bhard ++ nl :: tail) k
  = Some r.
Proof.
  intros Hds Hdig Hdnl Habs Hbnl Hk. unfold scan_re.
  destruct directory as [|c d]; [done|]. cbn [absolute] in Habs.
  apply Ascii.eqb_eq in Habs as ->. apply Forall_cons in Hdnl as [_ Hdnl].
  rewrite run_Seq, run_Bol_nl, run_Seq.
  apply (run_cap_plus cls_digit _ _ _ ds []); auto.
  { by rewrite app_nil_r. }
  { simpl. by vm_compute. }
  { intros ? b1 b2 Hnil Hne. by destruct b1. }
  intros ?. cbn [app].
  rewrite run_Seq, run_Lit, run_Seq, run_Lit, run_Seq.
  change (d ++ colon :: bhard ++ nl :: tail)
    with (d ++ (colon :: bhard) ++ nl :: tail).
  rewrite app_assoc. apply run_plus.
  - by destruct d.
  - apply no_newline_dot. apply Forall_app. split; [done|].
    constructor; [by vm_compute|done].
  - simpl. by vm_compute.
  - intros ?. rewrite run_Eol_nl. apply Hk.
Qed.

Lemma run_scan_re_none {A} (k : @cont A) ds directory bhard tail :
  digit_string ds -> directory <> [] -> absolute directory = false ->
  run scan_re [] (Some nl)
    (ds ++ colon :: directory ++ colon :: bhard ++ nl :: tail) k
  = None.
Proof.
  intros Hdig Hdir Habs. unfold scan_re.
  destruct directory as [|c d]; [done|]. cbn [absolute] in Habs.
  apply Ascii.eqb_neq in Habs.
  rewrite run_Seq, run_Bol_nl, run_Seq.
  apply run_cap_plus_none; [done|by vm_compute|].
  intros p a1 a2 -> Ha1. rewrite run_Seq.
  destruct a2 as [|y a2]; cbn [app].
  - rewrite run_Lit, run_Seq. by apply run_Lit_other.
  - apply run_Lit_other. apply Forall_app in Hdig as [_ Hdig].
    apply Forall_cons in Hdig as [Hy _].
    by apply strconv_facts.is_digit_not_colon.
Qed.

(** The scan on one block followed by more of the file. *)
Lemma find_all_scan_block t tail : forall prev,
  well_formed t ->
  find_all scan_re prev (text_of t ++ tail) 0
  = (if absolute_record t then [scan_match_of t] else [])
    ++ find_all scan_re (Some nl) tail 0.
Proof.
  destruct t as [[ds directory] bhard].
  intros prev (Hds & Hdig & Hdir & Hdnl & Hb & Hbnl & Hbc).
  cbn [text_of absolute_record scan_match_of]. rewrite block_text_app.
  cbn [find_all]. rewrite match_here_scan_newline.
  destruct ds as [|c ds]; [done|]. clear Hds.
  pose proof Hdig as Hdig'. apply Forall_cons in Hdig' as [Hc _].
  assert (Hcnl : c <> nl) by by apply strconv_facts.is_digit_not_nl.
  set (line := line_of (c :: ds) directory bhard).
  assert (Hline : (c :: ds) ++ colon :: directory ++ colon :: bhard ++ nl :: tail
                  = line ++ nl :: tail).
  { unfold line, line_of. by repeat (rewrite <- app_assoc; cbn [app]). }
  assert (Hlnl : no_newline line).
  { by apply store_facts.line_of_no_newline. }
  destruct (absolute directory) eqn:Habs.
  - assert (Hm : match_here scan_re (Some nl)
                   ((c :: ds) ++ colon :: directory ++ colon :: bhard
                    ++ nl :: tail) = Some [line; c :: ds]).
    { unfold match_here. apply run_scan_re; try done.
      intros ?. rewrite Hline. by rewrite take_app_sub. }
    cbn [app] in Hm |- *. cbn [find_all]. rewrite Hm. cbn [app]. f_equal.
    cbn [hd]. cbn [app] in Hline. clearbody line.
    destruct line as [|l0 line']; [cbn [app] in Hline; congruence|].
    cbn [app length] in *.
    injection Hline as _ Hline. rewrite Hline.
    rewrite Nat.sub_succ, Nat.sub_0_r.
    destruct (find_all_skip scan_re line' (Some c) (nl :: tail))
      as [prev' ->].
    cbn [find_all]. by rewrite match_here_scan_newline.
  - assert (Hm : match_here scan_re (Some nl)
                   ((c :: ds) ++ colon :: directory ++ colon :: bhard
                    ++ nl :: tail) = None).
    { unfold match_here. by apply run_scan_re_none. }
    cbn [app] in Hm |- *. cbn [find_all]. rewrite Hm. cbn [app].
    cbn [app] in Hline. clearbody line.
    destruct line as [|l0 line']; [cbn [app] in Hline; congruence|].
    cbn [app] in Hline.
    injection Hline as _ Hline. rewrite Hline.
    apply Forall_cons in Hlnl as [_ Hlnl].
    by apply find_all_scan_inside.
Qed.

Lemma find_all_scan_blocks ts : forall prev,
  Forall well_formed ts ->
  find_all scan_re prev (concat (map text_of ts)) 0
  = map scan_match_of (filter (fun t => absolute_record t = true) ts).
Proof.
  induction ts as [|t ts IH]; intros prev Hts; [done|].
  apply Forall_cons in Hts as [Ht Hts]. cbn [map concat].
  rewrite find_all_scan_block by done. rewrite IH by done.
  rewrite filter_cons. by destruct (absolute_record t).
Qed.

End scan_facts.

Import scan_facts.

(** X8. On a projects file made of blocks, the scan pattern of
    [newXfsQuotaer] finds exactly the records whose directory starts with
    a slash, each with the digit string [restoreQuotas] reads its tag
    from; [restoreQuotas] reads every record. A record with any other
    directory is read by [restoreQuotas] and not seen by the scan. *)
Theorem scan_sees_absolute_records ts :
  Forall well_formed ts ->
  let content := concat (map text_of ts) in
  FindAllSubmatch restore_re content = map match_of ts /\
  FindAllSubmatch scan_re content
  = map scan_match_of (filter (fun t => absolute_record t = true) ts) /\
  map match_id (FindAllSubmatch scan_re content)
  = map match_id
      (map match_of (filter (fun t => absolute_record t = true) ts)).
Proof.
  intros Hts content. split; [by apply FindAllSubmatch_blocks|].
  assert (Hscan : FindAllSubmatch scan_re content
                  = map scan_match_of
                      (filter (fun t => absolute_record t = true) ts))
    by by apply find_all_scan_blocks.
  split; [done|]. rewrite Hscan, !map_map. apply map_ext.
  by intros [[ds directory] bhard].
Qed.

(** X8 on a file with one absolute and one relative directory. *)
Lemma scan_sees_absolute_records_witness :
  let content := nl :: B "7:/data/vol1:5Gi" ++ nl :: nl :: B "8:vol2:1Gi"
                 ++ [nl] in
  map match_id (FindAllSubmatch restore_re content) = [7; 8] /\
  map match_id (FindAllSubmatch scan_re content) = [7].
Proof.
  intros content.
  destruct (scan_sees_absolute_records
              [(B "7", B "/data/vol1", B "5Gi"); (B "8", B "vol2", B "1Gi")])
    as (H1 & _ & H3).
  - repeat constructor; discriminate.
  - split.
    + replace content
        with (concat (map text_of [(B "7", B "/data/vol1", B "5Gi");
                                   (B "8", B "vol2", B "1Gi")]))
        by reflexivity.
      rewrite H1. reflexivity.
    + replace content
        with (concat (map text_of [(B "7", B "/data/vol1", B "5Gi");
                                   (B "8", B "vol2", B "1Gi")]))
        by reflexivity.
      rewrite H3. reflexivity.
Defined.

(** ** Tags that [restoreQuotas] needs registered *)

Lemma map_index_delete (ids : gmap N bool) id k :
  map_index (delete id ids) k = true -> map_index ids k = true.
Proof.
  unfold map_index. destruct (decide (id = k)) as [->|Hne].
  - by rewrite lookup_delete_eq.
  - by rewrite lookup_delete_ne.
Qed.

Lemma restore_loop_registered env ms : forall q q',
  restore_loop env ms q = (None, q') ->
  Forall (fun m => stale env m = false ->
                   map_index (projectIds q) (match_id m) = true) ms.
Proof.
  induction ms as [|m ms IH]; intros q q' H; [constructor|].
  destruct (stale env m) eqn:Hst.
  - rewrite restore_loop_stale in H by done. cbv zeta in H.
    rewrite RemoveProject_eq in H. cbn [fst snd] in H.
    apply IH in H. cbn [projectIds add_call] in H.
    constructor; [intros ?; congruence|].
    eapply Forall_impl; [exact H|]. intros m0 Hm0 Hs.
    apply map_index_delete with (match_id m). by apply Hm0.
  - rewrite restore_loop_present in H by done. cbv zeta in H.
    rewrite SetQuota_eq in H.
    destruct (map_index (projectIds q) (match_id m)) eqn:Hreg;
      cbn [fst snd] in H; [|discriminate].
    destruct (execOk env (log q) _); [|discriminate].
    apply IH in H. cbn [projectIds add_call add_event] in H.
    by constructor.
Qed.

Lemma restoreQuotas_registered env q q' m :
  restoreQuotas env q = (None, q') ->
  m ∈ FindAllSubmatch restore_re (file q) ->
  stale env m = false ->
  map_index (projectIds q) (match_id m) = true.
Proof.
  intros H Hm Hst. destruct (readOk env (log q)) eqn:Hread.
  - rewrite restoreQuotas_read in H by done.
    apply restore_loop_registered in H.
    cbn [projectIds file add_event] in H.
    rewrite Forall_forall in H. by apply H.
  - by rewrite restoreQuotas_unread in H.
Qed.

(** X9. [restoreQuotas] registers no tag itself: a run that succeeds has
    read the file, and every record it read whose directory is not
    reported missing had its tag in the project id map when the run
    started. *)
Theorem restoreQuotas_success_needs_registered_tags env q q' :
  restoreQuotas env q = (None, q') ->
  readOk env (log q) = true /\
  forall m, m ∈ FindAllSubmatch restore_re (file q) ->
    stale env m = false ->
    map_index (projectIds q) (match_id m) = true.
Proof.
  intros H. split.
  - destruct (readOk env (log q)) eqn:Hread; [done|].
    by rewrite restoreQuotas_unread in H.
  - intros m. by apply restoreQuotas_registered with q'.
Qed.

(** X9 on the file of one record, its tag registered. *)
Lemma restoreQuotas_success_needs_registered_tags_witness :
  let q := fresh {[ 7 := true ]} vol1_block in
  readOk env_ok (log q) = true /\
  forall m, m ∈ FindAllSubmatch restore_re (file q) ->
    stale env_ok m = false ->
    map_index (projectIds q) (match_id m) = true.
Proof.
  intros q.
  apply (restoreQuotas_success_needs_registered_tags env_ok q
           (snd (restoreQuotas env_ok q))).
  vm_compute. reflexivity.
Defined.

(** ** Construction on a projects file of blocks *)

Lemma scan_only (ms : list (list bytes)) : forall (ids : gmap N bool) id,
  map_index (fold_left (fun ids m => <[match_id m := true]> ids) ms ids) id
  = true ->
  map_index ids id = true \/ id ∈ map match_id ms.
Proof.
  induction ms as [|m ms IH]; intros ids id H; [by left|].
  cbn [fold_left] in H. apply IH in H as [H|H].
  - destruct (decide (match_id m = id)) as [<-|Hne].
    + right. cbn [map]. apply elem_of_cons. by left.
    + left. unfold map_index in *. by rewrite lookup_insert_ne in H.
  - right. cbn [map]. apply elem_of_cons. by right.
Qed.

Lemma before_restore_scanned env h content :
  validation h = None ->
  projects h = Some content ->
  before_restore env h
  = inr {| projectIds :=
             if readOk env []
             then fold_left (fun ids m => <[match_id m := true]> ids)
                    (FindAllSubmatch scan_re content) ∅
             else ∅;
           file := content;
           log := [EvReadFile];
           calls := [] |}.
Proof.
  intros Hv Hp. unfold before_restore. rewrite Hv, Hp.
  unfold getExistingIds, ReadFile, bind, gets, modify, ret.
  cbn [fresh log add_event app]. by destruct (readOk env []).
Qed.

Lemma match_id_scan_match_of t :
  match_id (scan_match_of t) = match_id (match_of t).
Proof. by destruct t as [[ds directory] bhard]. Qed.

(** X10. A record that [restoreQuotas] reads and the scan of
    [newXfsQuotaer] does not see stops construction. On a projects file
    made of blocks, if some record's directory is not reported missing
    and its tag is not the tag of a record whose directory starts with a
    slash, [newXfsQuotaer] fails in [restoreQuotas]. *)
Theorem newXfsQuotaer_fails_on_unscanned_record env h ts t :
  validation h = None ->
  projects h = Some (concat (map text_of ts)) ->
  Forall well_formed ts ->
  t ∈ ts ->
  stale env (match_of t) = false ->
  match_id (match_of t)
    ∉ map (fun t => match_id (match_of t))
        (filter (fun t => absolute_record t = true) ts) ->
  exists e, fst (newXfsQuotaer env h) = Some (ErrRestoring e).
Proof.
  intros Hv Hp Hts Ht Hst Hnew. unfold newXfsQuotaer.
  rewrite (before_restore_scanned env h _ Hv Hp).
  match goal with
  | |- context [restoreQuotas env ?q0] =>
      destruct (restoreQuotas env q0) as [[e|] q'] eqn:Hr
  end; [by exists e|]. exfalso.
  apply (restoreQuotas_registered env _ q' (match_of t)) in Hr; [|
    cbn [file]; rewrite FindAllSubmatch_blocks by done;
    by apply elem_of_map_intro | done].
  cbn [projectIds] in Hr. destruct (readOk env []); [|done].
  apply scan_only in Hr as [Hr|Hr]; [done|]. apply Hnew.
  unfold FindAllSubmatch in Hr. rewrite find_all_scan_blocks in Hr by done.
  rewrite map_map in Hr.
  erewrite map_ext in Hr; [exact Hr|]. intros t0.
  apply match_id_scan_match_of.
Qed.

(** X10 on a file whose second record has a relative directory. *)
Lemma newXfsQuotaer_fails_on_unscanned_record_witness :
  let h := {| validation := None;
              projects := Some (nl :: B "7:/data/vol1:5Gi" ++ nl :: nl
                                :: B "8:vol2:1Gi" ++ [nl]);
              createOk := true |} in
  exists e, fst (newXfsQuotaer env_ok h) = Some (ErrRestoring e).
Proof.
  intros h.
  apply (newXfsQuotaer_fails_on_unscanned_record env_ok h
           [(B "7", B "/data/vol1", B "5Gi"); (B "8", B "vol2", B "1Gi")]
           (B "8", B "vol2", B "1Gi")).
  - reflexivity.
  - reflexivity.
  - repeat constructor; discriminate.
  - apply elem_of_cons. right. apply elem_of_cons. by left.
  - reflexivity.
  - intros H. vm_compute in H.
    apply elem_of_cons in H as [H|H]; [discriminate|].
    by apply elem_of_nil in H.
Defined.

Lemma Forall_map_of {A C} (f : A -> C) (P : C -> Prop) (l : list A) :
  Forall (fun a => P (f a)) l -> Forall P (map f l).
Proof. induction 1; cbn [map]; by constructor. Qed.

Lemma restore_loop_all_limited env ms :
  (forall l c, execOk env l c = true) ->
  forall q,
    Forall (fun m => stale env m = false) ms ->
    Forall (fun m => map_index (projectIds q) (match_id m) = true) ms ->
    restore_loop env ms q
    = (None,
       {| projectIds := projectIds q;
          file := file q;
          log := log q
                 ++ map (fun m => EvExec (limit_command (nth 3 m [])
                                            (FormatUint (match_id m)))) ms;
          calls := calls q
                   ++ map (fun m => CallSetQuota (match_id m) (nth 2 m [])
                                      (nth 3 m []) None) ms |}).
Proof.
  intros Hexec. induction ms as [|m ms IH]; intros q Hst Hreg.
  - cbn [restore_loop map]. rewrite !app_nil_r. by destruct q.
  - apply Forall_cons in Hst as [Hst Hsts].
    apply Forall_cons in Hreg as [Hreg Hregs].
    rewrite restore_loop_present by done. cbv zeta. rewrite SetQuota_eq.
    rewrite Hreg. cbv zeta. rewrite Hexec. cbn [fst snd].
    rewrite IH by done.
    cbn [projectIds file log calls add_call add_event map].
    by rewrite <- !app_assoc.
Qed.

(** X11. Construction on a projects file made of blocks whose tags are
    numerals of at most 65535 and whose directories all start with a
    slash and are not reported missing, when the file can be read and
    [xfs_quota] succeeds: [newXfsQuotaer] succeeds, reads the file twice
    and then runs one limit command per record, in file order, with the
    record's limit and the number its numeral stands for; it leaves the
    file as it was and every record's tag ends in the project id map. *)
Theorem newXfsQuotaer_restores_every_record env h ts :
  validation h = None ->
  projects h = Some (concat (map text_of ts)) ->
  Forall well_formed ts ->
  Forall (fun t => numeral t <= MaxUint16) ts ->
  Forall (fun t => absolute_record t = true) ts ->
  Forall (fun t => stale env (match_of t) = false) ts ->
  (forall l, readOk env l = true) ->
  (forall l c, execOk env l c = true) ->
  exists q,
    newXfsQuotaer env h = (None, Some q) /\
    file q = concat (map text_of ts) /\
    log q = EvReadFile :: EvReadFile
            :: map (fun '(ds, directory, bhard) =>
                      EvExec (limit_command bhard
                                (FormatUint (dec_value ds)))) ts /\
    calls q = map (fun '(ds, directory, bhard) =>
                     CallSetQuota (dec_value ds) directory bhard None) ts /\
    forall t, t ∈ ts -> projectIds q !! numeral t = Some true.
Proof.
  intros Hv Hp Hts Hnum Habs Hst Hread Hexec. unfold newXfsQuotaer.
  rewrite (before_restore_scanned env h _ Hv Hp). rewrite Hread.
  assert (Hfilter : filter (fun t => absolute_record t = true) ts = ts).
  { clear -Habs. induction Habs as [|t ts Ht _ IH]; [done|].
    rewrite filter_cons_True by done. by rewrite IH. }
  assert (Hid : forall t, t ∈ ts -> match_id (match_of t) = numeral t).
  { intros [[ds directory] bhard] Ht.
    rewrite Forall_forall in Hts. rewrite Forall_forall in Hnum.
    destruct (Hts _ Ht) as (Hne & Hds & _). pose proof (Hnum _ Ht) as Hle.
    cbn [match_of numeral] in *. rewrite match_id_min by done.
    unfold MaxUint16 in Hle. by apply N.min_l. }
  assert (Hids : forall t, t ∈ ts ->
            fold_left (fun ids m => <[match_id m := true]> ids)
              (FindAllSubmatch scan_re (concat (map text_of ts)))
              (∅ : gmap N bool)
            !! match_id (match_of t) = Some true).
  { intros t Ht. rewrite <- match_id_scan_match_of.
    apply scan_registers. unfold FindAllSubmatch.
    rewrite find_all_scan_blocks by done. rewrite Hfilter.
    by apply elem_of_map_intro. }
  rewrite restoreQuotas_read by apply Hread.
  cbn [file add_event]. rewrite FindAllSubmatch_blocks by done.
  rewrite (restore_loop_all_limited env _ Hexec).
  - eexists. split; [reflexivity|].
    cbn [file log calls projectIds add_event app].
    rewrite !map_map. split; [done|]. split; [|split].
    + do 2 f_equal. apply map_ext_in. intros [[ds directory] bhard] Ht.
      apply list_elem_of_In in Ht. rewrite (Hid _ Ht). done.
    + apply map_ext_in. intros [[ds directory] bhard] Ht.
      apply list_elem_of_In in Ht. rewrite (Hid _ Ht). done.
    + intros t Ht. rewrite <- (Hid _ Ht). by apply Hids.
  - by apply Forall_map_of.
  - apply Forall_map_of. apply Forall_forall. intros t Ht.
    cbn [projectIds add_event]. unfold map_index. by rewrite Hids.
Qed.

(** X11 on a file of two records. *)
Lemma newXfsQuotaer_restores_every_record_witness :
  let h := {| validation := None;
              projects := Some (nl :: B "7:/data/vol1:5Gi" ++ nl :: nl
                                :: B "8:/data/vol2:1Gi" ++ [nl]);
              createOk := true |} in
  exists q,
    newXfsQuotaer env_ok h = (None, Some q) /\
    calls q = [CallSetQuota 7 (B "/data/vol1") (B "5Gi") None;
               CallSetQuota 8 (B "/data/vol2") (B "1Gi") None] /\
    log q = [EvReadFile; EvReadFile;
             EvExec (B "limit -p bhard=5Gi 7");
             EvExec (B "limit -p bhard=1Gi 8")].
Proof.
  intros h.
  destruct (newXfsQuotaer_restores_every_record env_ok h
              [(B "7", B "/data/vol1", B "5Gi");
               (B "8", B "/data/vol2", B "1Gi")])
    as (q & Hn & _ & Hl & Hc & _).
  - reflexivity.
  - reflexivity.
  - repeat constructor; discriminate.
  - repeat constructor; discriminate.
  - repeat constructor.
  - repeat constructor.
  - reflexivity.
  - reflexivity.
  - exists q. split; [exact Hn|]. split.
    + rewrite Hc. reflexivity.
    + rewrite Hl. reflexivity.
Defined.

(** ** What [AddProject] does and does not do *)

(** X12. A run of [AddProject] that got a tag does one of three things,
    told apart by what it returns. It returns the block and the tag
    without an error after it appended the block and then ran the
    [project] command for the directory and the tag. It returns the
    error of the append after the attempt to append and nothing else. It
    returns the error of the [project] command after it appended the
    block, ran the command and then attempted to remove the block. It
    runs no limit command: the limit it is given is only written into
    the block. *)
Theorem AddProject_only_appends_and_projects env directory bhard q r q' :
  AddProject env directory bhard q = (Some r, q') ->
  (exists id,
     let block := block_of id directory bhard in
     let command := project_command directory (FormatUint id) in
     (r = (block, id, None) /\
      log q' = log q ++ [EvAppend block; EvExec command]) \/
     (r = ([], 0, Some (ErrAddBlock block (ErrFile (EvAppend block)))) /\
      log q' = log q ++ [EvAppend block]) \/
     (r = ([], 0, Some (ErrXfsQuota command)) /\
      log q' = log q ++ [EvAppend block; EvExec command; EvRemove block])) /\
  (forall b s,
     EvExec (limit_command b s) ∈ log q' ->
     EvExec (limit_command b s) ∈ log q).
Proof.
  intros H.
  assert (Hrun : exists id,
            let block := block_of id directory bhard in
            let command := project_command directory (FormatUint id) in
            (r = (block, id, None) /\
             log q' = log q ++ [EvAppend block; EvExec command]) \/
            (r = ([], 0, Some (ErrAddBlock block (ErrFile (EvAppend block))))
             /\ log q' = log q ++ [EvAppend block]) \/
            (r = ([], 0, Some (ErrXfsQuota command)) /\
             log q' = log q ++ [EvAppend block; EvExec command;
                                EvRemove block])).
  { destruct (free_id (projectIds q)) as [id|] eqn:Hid;
      [|by rewrite AddProject_exhausted in H].
    exists id. cbv zeta.
    set (block := block_of id directory bhard).
    set (command := project_command directory (FormatUint id)).
    destruct (appendOk env (log q) block) eqn:Happ;
      [destruct (execOk env (log q ++ [EvAppend block]) command) eqn:Hexec|].
    - rewrite (AddProject_succeeds env directory bhard q id) in H by done.
      injection H as <- <-. left. cbn [log].
      by rewrite <- app_assoc.
    - rewrite (AddProject_associate_fails env directory bhard q id) in H
        by done.
      injection H as <- <-. right; right. cbn [log].
      by rewrite <- !app_assoc.
    - rewrite (AddProject_append_fails env directory bhard q id) in H
        by done.
      injection H as <- <-. right; left. done. }
  split; [done|]. intros b s Hin.
  destruct Hrun as (id & [[_ Hlog]|[[_ Hlog]|[_ Hlog]]]);
    rewrite Hlog in Hin; apply elem_of_app in Hin as [Hin|Hin]; try done;
    exfalso;
    repeat (apply elem_of_cons in Hin as [Hin|Hin];
            [try discriminate;
             injection Hin as Hin;
             by apply (limit_is_not_project b s directory (FormatUint id))|]);
    by apply elem_of_nil in Hin.
Qed.

(** X12 on the first project of an empty quotaer. *)
Lemma AddProject_only_appends_and_projects_witness :
  let q := fresh ∅ [] in
  let r := AddProject env_ok (B "/data/vol1") (B "5Gi") q in
  fst r = Some (vol1_tag1_block, 1, None) /\
  log (snd r) = [EvAppend vol1_tag1_block;
                 EvExec (B "project -s -p /data/vol1 1")] /\
  EvExec (limit_command (B "5Gi") (B "1")) ∉ log (snd r).
Proof.
  intros q r. split; [reflexivity|]. split; [reflexivity|]. intros Hin.
  destruct (AddProject_only_appends_and_projects env_ok
              (B "/data/vol1") (B "5Gi") q (vol1_tag1_block, 1, None)
              (snd r)) as [_ Hno].
  - vm_compute. reflexivity.
  - apply Hno in Hin. by apply elem_of_nil in Hin.
Defined.

(** ** A project from [AddProject] to [RemoveProject] *)

Lemma AddProject_success_inv env directory bhard q block id q1 :
  AddProject env directory bhard q = (Some (block, id, None), q1) ->
  block = block_of id directory bhard /\
  projectIds q1 = <[id := true]> (projectIds q) /\
  file q1 = file q ++ block.
Proof.
  intros H. destruct (free_id (projectIds q)) as [id0|] eqn:Hid;
    [|by rewrite AddProject_exhausted in H].
  destruct (appendOk env (log q) (block_of id0 directory bhard)) eqn:Happ;
    [|by rewrite (AddProject_append_fails env directory bhard q id0) in H].
  destruct (execOk env (log q ++ [EvAppend (block_of id0 directory bhard)])
              (project_command directory (FormatUint id0))) eqn:Hexec;
    [|by rewrite (AddProject_associate_fails env directory bhard q id0) in H].
  rewrite (AddProject_succeeds env directory bhard q id0) in H by done.
  injection H as <- <- <-. done.
Qed.

(** X13. The tag [AddProject] returns can be limited until the project
    is removed and not after: right after a successful [AddProject],
    [SetQuota] with the returned tag runs the limit command; after
    [RemoveProject] with the returned block and tag, whether or not the
    removal from the file succeeded, [SetQuota] with that tag fails
    without running anything. *)
Theorem SetQuota_between_add_and_remove
    env directory bhard q block id q1 directory' bhard' :
  AddProject env directory bhard q = (Some (block, id, None), q1) ->
  log (snd (SetQuota env id directory' bhard' q1))
  = log q1 ++ [EvExec (limit_command bhard' (FormatUint id))] /\
  (let q2 := snd (RemoveProject env block id q1) in
   SetQuota env id directory' bhard' q2 = (Some (ErrNotAdded id), q2)).
Proof.
  intros H. apply AddProject_success_inv in H as (_ & Hids & _). split.
  - rewrite SetQuota_eq. unfold map_index.
    rewrite Hids, lookup_insert_eq. cbn [default]. done.
  - cbv zeta. rewrite RemoveProject_eq. cbn [snd]. rewrite SetQuota_eq.
    unfold map_index. cbn [projectIds]. by rewrite lookup_delete_eq.
Qed.

(** X13 on the first project of an empty quotaer, the removal from the
    file failing. *)
Lemma SetQuota_between_add_and_remove_witness :
  let q := fresh ∅ [] in
  let r := AddProject env_remove_fail (B "/data/vol1") (B "5Gi") q in
  let q2 := snd (RemoveProject env_remove_fail vol1_tag1_block 1 (snd r)) in
  file q2 = vol1_tag1_block /\
  SetQuota env_remove_fail 1 (B "/data/vol1") (B "9Gi") q2
  = (Some (ErrNotAdded 1), q2).
Proof.
  intros q r q2. split; [reflexivity|].
  apply (SetQuota_between_add_and_remove env_remove_fail
           (B "/data/vol1") (B "5Gi") q vol1_tag1_block 1 (snd r)
           (B "/data/vol1") (B "9Gi")).
  vm_compute. reflexivity.
Defined.

(** ** Records that are not framed by newlines of their own *)

Lemma find_all_restore_inv s : forall skip prev m,
  m ∈ find_all restore_re prev s skip -> is_record m.
Proof.
  induction s as [|c s IH]; intros skip prev m Hin.
  - by apply elem_of_nil in Hin.
  - cbn [find_all] in Hin. destruct skip as [|skip]; [|by eapply IH].
    destruct (match_here restore_re prev (c :: s)) as [m0|] eqn:Hm;
      [|by eapply IH].
    apply elem_of_cons in Hin as [->|Hin]; [|by eapply IH].
    by eapply match_here_restore_inv.
Qed.

(** A text whose only newline is its last byte holds no record. *)
Lemma find_all_restore_one_line line prev skip :
  no_newline line ->
  find_all restore_re prev (line ++ [nl]) skip = [].
Proof.
  intros Hline.
  destruct (find_all restore_re prev (line ++ [nl]) skip) as [|m ms] eqn:Hf;
    [done|]. exfalso.
  assert (Hin : m ∈ find_all restore_re prev (line ++ [nl]) skip)
    by (rewrite Hf; apply elem_of_cons; by left).
  pose proof (find_all_restore_inv _ _ _ _ Hin)
    as (ds & directory & bhard & -> & Hne & _).
  apply (find_all_restore_occurs _ []) in Hin as (a & b & Hab).
  cbn [app nth] in Hab. rewrite store_facts.block_text_framed in Hab.
  unfold framed in Hab. cbn [app] in Hab.
  assert (Hlen : (length line + 1
                  = length a + S (length (line_of ds directory bhard ++ [nl])
                                  + length b))%nat).
  { apply (f_equal length) in Hab.
    rewrite !length_app in Hab. cbn [length] in Hab.
    rewrite !length_app in Hab. cbn [length] in Hab.
    rewrite !length_app. cbn [length]. lia. }
  rewrite length_app in Hlen. cbn [length] in Hlen.
  assert (Hlt : (length a < length line)%nat) by lia.
  assert (Hnl : (line ++ [nl]) !! length a = Some nl).
  { rewrite Hab. by rewrite list_lookup_middle. }
  rewrite lookup_app_l in Hnl by done.
  eapply Forall_lookup_1 in Hline; [|exact Hnl]. done.
Qed.

(** X14. [restoreQuotas] reads a record only when the record has a
    newline of its own on each side. A record line at the start of the
    file with no newline before it is not read, and of two records that
    share the newline between them only the first is read; with a
    newline each, both are. *)
Theorem restore_skips_unframed_records ds1 d1 b1 ds2 d2 b2 :
  well_formed (ds1, d1, b1) ->
  well_formed (ds2, d2, b2) ->
  FindAllSubmatch restore_re (line_of ds2 d2 b2 ++ [nl]) = [] /\
  FindAllSubmatch restore_re
    (block_text ds1 d1 b1 ++ line_of ds2 d2 b2 ++ [nl])
  = [[block_text ds1 d1 b1; ds1; d1; b1]] /\
  FindAllSubmatch restore_re (block_text ds1 d1 b1 ++ block_text ds2 d2 b2)
  = [[block_text ds1 d1 b1; ds1; d1; b1];
     [block_text ds2 d2 b2; ds2; d2; b2]].
Proof.
  intros H1 H2.
  assert (Hline : no_newline (line_of ds2 d2 b2)).
  { destruct H2 as (_ & ? & _ & ? & _ & ? & _).
    by apply store_facts.line_of_no_newline. }
  split; [by apply find_all_restore_one_line|]. split.
  - destruct H1 as (? & ? & ? & ? & ? & ? & ?).
    unfold FindAllSubmatch.
    pose proof (match_here_block None ds1 d1 b1
                  (line_of ds2 d2 b2 ++ [nl])) as Hm.
    remember (block_text ds1 d1 b1) as blk eqn:Hblk.
    assert (Hcons : exists x, blk = nl :: x) by (subst blk; by eexists).
    destruct Hcons as [x ->]. cbn [app find_all] in *.
    rewrite Hm by done. f_equal. cbn [hd length].
    rewrite Nat.sub_succ, Nat.sub_0_r.
    destruct (find_all_skip restore_re x (Some nl)
                (line_of ds2 d2 b2 ++ [nl])) as [prev' ->].
    by apply find_all_restore_one_line.
  - pose proof (FindAllSubmatch_blocks [(ds1, d1, b1); (ds2, d2, b2)]) as H.
    cbn [map concat text_of match_of] in H. rewrite app_nil_r in H.
    apply H. repeat (constructor; [done|]). constructor.
Qed.

(** X14 on two records written one line after the other. *)
Lemma restore_skips_unframed_records_witness :
  FindAllSubmatch restore_re (B "8:/data/vol2:1Gi" ++ [nl]) = [] /\
  map match_id
    (FindAllSubmatch restore_re
       (nl :: B "7:/data/vol1:5Gi" ++ nl :: B "8:/data/vol2:1Gi" ++ [nl]))
  = [7].
Proof.
  destruct (restore_skips_unframed_records
              (B "7") (B "/data/vol1") (B "5Gi")
              (B "8") (B "/data/vol2") (B "1Gi")) as (H1 & H2 & _).
  - repeat constructor; discriminate.
  - repeat constructor; discriminate.
  - split; [exact H1|].
    replace (nl :: B "7:/data/vol1:5Gi" ++ nl :: B "8:/data/vol2:1Gi" ++ [nl])
      with (block_text (B "7") (B "/data/vol1") (B "5Gi")
            ++ line_of (B "8") (B "/data/vol2") (B "1Gi") ++ [nl])
      by reflexivity.
    rewrite H2. reflexivity.
Defined.

(** ** Construction without a projects file *)

(** X15. When the checks pass and there is no projects file,
    [newXfsQuotaer] creates it and fails if it cannot. Otherwise
    [restoreQuotas] reads the empty file and that is all: the project id
    map is empty, [xfs_quota] is not run, and construction fails only if
    the file just created cannot be read. *)
Theorem newXfsQuotaer_without_projects_file env h :
  validation h = None ->
  projects h = None ->
  newXfsQuotaer env h
  = if createOk h then
      (if readOk env [] then None
       else Some (ErrRestoring (ErrFile EvReadFile)),
       Some {| projectIds := ∅; file := []; log := [EvReadFile];
               calls := [] |})
    else (Some ErrCreate, None).
Proof.
  intros Hv Hp. unfold newXfsQuotaer, before_restore. rewrite Hv, Hp.
  destruct (createOk h); [|done].
  destruct (readOk env []) eqn:Hread.
  - by rewrite restoreQuotas_read.
  - by rewrite restoreQuotas_unread.
Qed.

(** X15 on a host where everything succeeds. *)
Lemma newXfsQuotaer_without_projects_file_witness :
  newXfsQuotaer env_ok
    {| validation := None; projects := None; createOk := true |}
  = (None,
     Some {| projectIds := ∅; file := []; log := [EvReadFile];
             calls := [] |}).
Proof.
  apply (newXfsQuotaer_without_projects_file env_ok
           {| validation := None; projects := None; createOk := true |});
    reflexivity.
Defined.
